(** * Jobly: companies and jobs over a SQL store

    A shallow embedding of the data-access layer of the Jobly REST service
    (helpers/sql.js, models/job.js, models/company.js and the GET /jobs
    route), together with the properties its specification states.

    JavaScript values are a small inductive type; objects are association
    lists in property order; the SQL store is a pair of tables (lists of
    typed rows in heap order) threaded through a state-and-error monad that
    also records every statement sent to the database.

    Modelling conventions, fixed here once:
    - strings are ASCII strings, and both JavaScript's [toLowerCase] and
      SQL's [LOWER] are ASCII lower-casing; the database takes no text
      that holds the character NUL, and the readers of text do not look
      for it: a statement about when a query succeeds says so;
    - [JNum] carries integer-valued numbers only;
    - [ORDER BY] is a stable insertion sort on the heap order (SQL leaves the
      order of ties open) and text is ordered byte-wise;
    - the database accepts a parameter for a column when the value reads as
      a literal of the column's type ([pg_int], [pg_text], [pg_numeric]);
      [pg_int] reads an integer as PostgreSQL's integer input does (blanks
      around it, a sign, and the non-decimal forms and underscores of
      version 16 and later), [pg_numeric] knows the plain spellings only
      (no blanks, no sign, no exponent), and what they refuse is a
      rejected statement;
    - primary keys, the jobs-to-companies foreign key and NOT NULL on the
      key and title/name columns are enforced, CHECK constraints are not
      (the DDL is not part of the sources). *)

From Stdlib Require Import ZArith Ascii String List Bool Lia.
From Stdlib Require Import DecimalString DecimalNat DecimalFacts.
From Stdlib Require Import Permutation Sorted.
From stdpp Require Import base option list strings gmap.

Set Warnings "-register-all".
#[local] Arguments String.append !_ _ : simpl nomatch.
Open Scope Z_scope.

(** ** JavaScript values *)

Inductive jsval : Type :=
| JUndefined
| JNull
| JBool (b : bool)
| JNum (n : Z)
| JStr (s : string)
| JArr (xs : list jsval)
| JObj (fields : list (string * jsval)).

(** An object is its list of own properties, in property order. *)
Abbreviation obj := (list (string * jsval)).

(** [ToBoolean]: what [if (v)], [v ? a : b] and [v || w] test. *)
Definition truthy (v : jsval) : bool :=
  match v with
  | JUndefined | JNull => false
  | JBool b => b
  | JNum n => negb (n =? 0)
  | JStr s => negb (String.eqb s "")
  | JArr _ | JObj _ => true
  end.

(** [a === b].  Arrays and objects compare by reference; every array or
    object met here is freshly built by a query, so two of them never are
    the same reference. *)
Definition strict_eq (a b : jsval) : bool :=
  match a, b with
  | JUndefined, JUndefined => true
  | JNull, JNull => true
  | JBool x, JBool y => Bool.eqb x y
  | JNum x, JNum y => x =? y
  | JStr x, JStr y => String.eqb x y
  | _, _ => false
  end.

(** [typeof v === "boolean"]. *)
Definition is_boolean (v : jsval) : bool :=
  match v with JBool _ => true | _ => false end.

(** [o[k]] for an own property, [undefined] when there is none. *)
Fixpoint obj_get (o : obj) (k : string) : jsval :=
  match o with
  | [] => JUndefined
  | (k', v) :: o' => if String.eqb k' k then v else obj_get o' k
  end.

(** [o[k] = v]: overwrite in place, or append a new property. *)
Fixpoint obj_set (o : obj) (k : string) (v : jsval) : obj :=
  match o with
  | [] => [(k, v)]
  | (k', v') :: o' =>
      if String.eqb k' k then (k', v) :: o' else (k', v') :: obj_set o' k v
  end.

(** [Object.keys] and [Object.values]. *)
Definition obj_keys (o : obj) : list string := map fst o.
Definition obj_values (o : obj) : list jsval := map snd o.

(** ** Strings *)

Definition lower_ascii (c : ascii) : ascii :=
  let n := nat_of_ascii c in
  if (Nat.leb 65 n && Nat.leb n 90)%bool then ascii_of_nat (n + 32)%nat else c.

(** [s.toLowerCase()] and SQL [LOWER(s)]. *)
Fixpoint toLowerCase (s : string) : string :=
  match s with
  | EmptyString => EmptyString
  | String c s' => String (lower_ascii c) (toLowerCase s')
  end.

(** Decimal rendering of an array index or a count, as a template literal
    prints it. *)
Definition dec (n : nat) : string := NilEmpty.string_of_uint (Nat.to_uint n).

(** Decimal rendering of an integer-valued number. *)
Definition dec_Z (n : Z) : string :=
  if n <? 0 then "-" +:+ dec (Z.to_nat (- n)) else dec (Z.to_nat n).

(** The double-quote character that delimits an SQL identifier. *)
Definition dquote : string := String (ascii_of_nat 34) EmptyString.

(** [xs.join(sep)]. *)
Fixpoint join (sep : string) (xs : list string) : string :=
  match xs with
  | [] => ""
  | [x] => x
  | x :: xs' => x +:+ sep +:+ join sep xs'
  end.

(** ** Errors and results *)

(** The error classes a call can throw: the two of expressError that the
    models use, a JavaScript [TypeError], and an error raised by the
    database driver. *)
Inductive error : Type :=
| BadRequestError
| NotFoundError
| TypeError
| DatabaseError.

Inductive res (A : Type) : Type :=
| Ok (a : A)
| Err (e : error).
Arguments Ok {A} a.
Arguments Err {A} e.

(** ** helpers/sql.js *)

Module Sql.

Record partial_update : Type := {
  setCols : string;
  values : list jsval
}.

(** A built-in function as a template literal prints it. *)
Definition native (name : string) : string :=
  "function " +:+ name +:+ "() { [native code] }".

(** [jsToSql] is a plain object, so [jsToSql[colName]] also finds what
    every object inherits from [Object.prototype]: its methods, the
    constructor [Object], and the prototype itself under [__proto__].
    Each is truthy; this is how the template literal prints it. *)
Definition inherited (colName : string) : option string :=
  if String.eqb colName "constructor" then Some (native "Object")
  else if String.eqb colName "__proto__" then Some "[object Object]"
  else if existsb (String.eqb colName)
            ["hasOwnProperty"; "isPrototypeOf"; "propertyIsEnumerable";
             "toLocaleString"; "toString"; "valueOf";
             "__defineGetter__"; "__defineSetter__";
             "__lookupGetter__"; "__lookupSetter__"]
       then Some (native colName)
  else None.

(** [jsToSql[colName] || colName]: the own entry, unless it is the empty
    string; with no own entry the inherited property of that name, if
    there is one; the field name otherwise. *)
Definition column (jsToSql : gmap string string) (colName : string) : string :=
  match jsToSql !! colName with
  | Some c => if truthy (JStr c) then c else colName
  | None => default colName (inherited colName)
  end.

(** The template literal of the [keys.map] callback. *)
Definition fragment (jsToSql : gmap string string)
    (idx : nat) (colName : string) : string :=
  dquote +:+ column jsToSql colName +:+ dquote +:+ "=$" +:+ dec (idx + 1).

Definition sqlForPartialUpdate (dataToUpdate : obj)
    (jsToSql : gmap string string) : res partial_update :=
  let keys := obj_keys dataToUpdate in
  if Nat.eqb (length keys) 0 then Err BadRequestError
  else
    let cols := imap (fragment jsToSql) keys in
    Ok {| setCols := join ", " cols;
          values := obj_values dataToUpdate |}.

End Sql.

(** ** The store *)

(** A row of [jobs]: id, title, salary, equity, company_handle. *)
Record job_row : Type := JobRow {
  j_id : Z;
  j_title : string;
  j_salary : option Z;
  j_equity : option string;
  j_company_handle : string
}.

(** A row of [companies]: handle, name, description, num_employees,
    logo_url. *)
Record company_row : Type := CompanyRow {
  c_handle : string;
  c_name : string;
  c_description : string;
  c_num_employees : option Z;
  c_logo_url : option string
}.

Record db : Type := Db {
  jobs : list job_row;
  companies : list company_row;
  jobs_id_seq : Z
}.

(** What [db.query] was asked to run: the kind of statement and its table. *)
Inductive table : Type := Jobs | Companies.
Inductive stmt : Type :=
| SELECT (t : table)
| INSERT (t : table)
| UPDATE (t : table)
| DELETE (t : table).

Record world : Type := World {
  store : db;
  sent : list stmt
}.

(** ** The monad of an async model function

    A call runs against the world and either resolves with a value or
    rejects with an error; either way it leaves a world behind. *)

Definition M (A : Type) : Type := world -> res A * world.

#[export] Instance M_ret : MRet M := fun A a w => (Ok a, w).
#[export] Instance M_bind : MBind M := fun A B f m w =>
  match m w with
  | (Ok a, w') => f a w'
  | (Err e, w') => (Err e, w')
  end.

Definition throw {A : Type} (e : error) : M A := fun w => (Err e, w).

(** [await db.query(...)]: the statement is recorded, then run on the
    store; a statement that fails leaves the store as it was. *)
Definition query {A : Type} (s : stmt) (run : db -> res (A * db)) : M A :=
  fun w =>
    let sent' := sent w ++ [s] in
    match run (store w) with
    | Ok (a, d') => (Ok a, {| store := d'; sent := sent' |})
    | Err e => (Err e, {| store := store w; sent := sent' |})
    end.

(** A statement that only reads. *)
Definition reading {A : Type} (f : db -> res A) (d : db) : res (A * db) :=
  match f d with
  | Ok a => Ok (a, d)
  | Err e => Err e
  end.

(** ** ORDER BY *)

Section OrderBy.
Context {A : Type} (leb : A -> A -> bool).

Fixpoint insert_by (x : A) (l : list A) : list A :=
  match l with
  | [] => [x]
  | y :: l' => if leb x y then x :: l else y :: insert_by x l'
  end.

Definition order_by (l : list A) : list A := foldr insert_by [] l.

End OrderBy.

(** Ascending order on a nullable integer column: NULLs come last. *)
Definition null_last_leb (a b : option Z) : bool :=
  match a, b with
  | Some x, Some y => x <=? y
  | Some _, None => true
  | None, Some _ => false
  | None, None => true
  end.

(** ** LIKE *)

Definition percent : ascii := ascii_of_nat 37.
Definition underscore : ascii := ascii_of_nat 95.
Definition backslash : ascii := ascii_of_nat 92.

(** [s LIKE p]: [%] matches any run of characters, [_] any one character,
    a backslash makes the next pattern character literal.  A pattern that
    ends in a lone backslash is an error in SQL; it matches nothing here,
    and no pattern the models build ends that way (they end in [%]). *)
Fixpoint like (p s : string) : bool :=
  match p with
  | EmptyString => match s with EmptyString => true | String _ _ => false end
  | String c p' =>
      if Ascii.eqb c percent then
        (fix any (s : string) : bool :=
           like p' s
           || match s with EmptyString => false | String _ s' => any s' end) s
      else if Ascii.eqb c underscore then
        match s with EmptyString => false | String _ s' => like p' s' end
      else if Ascii.eqb c backslash then
        match p', s with
        | String c' p'', String d s' => Ascii.eqb c' d && like p'' s'
        | _, _ => false
        end
      else
        match s with
        | EmptyString => false
        | String d s' => Ascii.eqb c d && like p' s'
        end
  end.

(** ** Parameters as the database reads them

    A parameter reaches the database as text and is read as a literal of
    the type of the column it is compared with or assigned to.  The outer
    [option] is failure (the statement is rejected), the inner one NULL. *)

Definition int4 (n : Z) : bool := (-2147483648 <=? n) && (n <=? 2147483647).

(** A query value as digits: an optional minus sign and at least one
    digit. *)
Definition parse_int (s : string) : option Z :=
  Z.of_int <$> NilZero.int_of_string s.

(** C's [isspace]: the blank and the five controls from tab to carriage
    return. *)
Definition is_space (c : ascii) : bool :=
  let n := nat_of_ascii c in
  (Nat.eqb n 32 || (Nat.leb 9 n && Nat.leb n 13))%bool.

Fixpoint skip_spaces (s : string) : string :=
  match s with
  | String c s' => if is_space c then skip_spaces s' else s
  | EmptyString => s
  end.

Fixpoint only_spaces (s : string) : bool :=
  match s with
  | String c s' => is_space c && only_spaces s'
  | EmptyString => true
  end.

(** The value of a digit of the base, if [c] is one. *)
Definition digit_in (base : Z) (c : ascii) : option Z :=
  let n := Z.of_nat (nat_of_ascii c) in
  let v := if (48 <=? n) && (n <=? 57) then Some (n - 48)
           else if (97 <=? n) && (n <=? 102) then Some (n - 87)
           else if (65 <=? n) && (n <=? 70) then Some (n - 55)
           else None in
  match v with
  | Some d => if d <? base then Some d else None
  | None => None
  end.

(** The digits of an integer and what may follow them.  An underscore
    stands between digits only (a non-decimal form may begin with one);
    after the last digit nothing but blanks; at least one digit.
    [first] holds until a character has been read. *)
Fixpoint int_digits (base : Z) (first : bool) (acc : Z) (s : string)
    : option Z :=
  match s with
  | EmptyString => if first then None else Some acc
  | String c s' =>
      match digit_in base c with
      | Some d => int_digits base false (acc * base + d) s'
      | None =>
          if Ascii.eqb c "_"%char then
            if first && (base =? 10) then None
            else
              match s' with
              | String c' _ =>
                  match digit_in base c' with
                  | Some _ => int_digits base false acc s'
                  | None => None
                  end
              | EmptyString => None
              end
          else if first then None
          else if only_spaces s then Some acc
          else None
      end
  end.

(** The base a prefix [0x], [0o] or [0b] announces, in either case. *)
Definition radix (c : ascii) : option Z :=
  if Ascii.eqb c "x"%char || Ascii.eqb c "X"%char then Some 16
  else if Ascii.eqb c "o"%char || Ascii.eqb c "O"%char then Some 8
  else if Ascii.eqb c "b"%char || Ascii.eqb c "B"%char then Some 2
  else None.

Definition unsigned_in (s : string) : option Z :=
  match s with
  | String c (String x s') =>
      if Ascii.eqb c "0"%char then
        match radix x with
        | Some base => int_digits base true 0 s'
        | None => int_digits 10 true 0 s
        end
      else int_digits 10 true 0 s
  | _ => int_digits 10 true 0 s
  end.

(** The text of an integer as the database reads it: blanks, an optional
    sign, the digits, blanks. *)
Definition int4in (s : string) : option Z :=
  match skip_spaces s with
  | String c s' =>
      if Ascii.eqb c "-"%char then Z.opp <$> unsigned_in s'
      else if Ascii.eqb c "+"%char then unsigned_in s'
      else unsigned_in (String c s')
  | EmptyString => None
  end.

(** A parameter read as [integer]. *)
Definition pg_int (v : jsval) : option (option Z) :=
  match v with
  | JUndefined | JNull => Some None
  | JNum n => if int4 n then Some (Some n) else None
  | JStr s =>
      match int4in s with
      | Some n => if int4 n then Some (Some n) else None
      | None => None
      end
  | JBool _ | JArr _ | JObj _ => None
  end.

(** A parameter read as [text].  Arrays and objects, which the driver
    would serialise first, are left out of the model and refused. *)
Definition pg_text (v : jsval) : option (option string) :=
  match v with
  | JUndefined | JNull => Some None
  | JStr s => Some (Some s)
  | JNum n => Some (Some (dec_Z n))
  | JBool b => Some (Some (if b then "true" else "false"))
  | JArr _ | JObj _ => None
  end.

Definition is_digit (c : ascii) : bool :=
  let n := nat_of_ascii c in (Nat.leb 48 n && Nat.leb n 57)%bool.

Definition digit_value (c : ascii) : nat := (nat_of_ascii c - 48)%nat.

(** One more digit read into a decimal number. *)
Definition push_digit (n : option nat) (c : ascii) : option nat :=
  Some (10 * default 0 n + digit_value c)%nat.

Fixpoint numeric_tail (seen_dot last_digit : bool) (s : string) : bool :=
  match s with
  | EmptyString => last_digit
  | String c s' =>
      if is_digit c then numeric_tail seen_dot true s'
      else if Ascii.eqb c "."%char && negb seen_dot && last_digit
           then numeric_tail true false s'
           else false
  end.

(** Unsigned decimal literals in the form the database prints them back:
    digits, optionally a point and more digits, no spare leading zero.
    Other spellings that the database would accept and normalise are left
    out of the model and refused. *)
Definition numeric_literal (s : string) : bool :=
  match s with
  | String c (String c' _) =>
      if Ascii.eqb c "0"%char && is_digit c' then false
      else numeric_tail false false s
  | _ => numeric_tail false false s
  end.

(** A parameter read as [numeric]; the value is kept as its text, which is
    how the driver hands a [numeric] back. *)
Definition pg_numeric (v : jsval) : option (option string) :=
  match v with
  | JUndefined | JNull => Some None
  | JNum n => if 0 <=? n then Some (Some (dec_Z n)) else None
  | JStr s => if numeric_literal s then Some (Some s) else None
  | JBool _ | JArr _ | JObj _ => None
  end.

(** A column value as the driver returns it. *)
Definition js_of_int (o : option Z) : jsval :=
  match o with Some n => JNum n | None => JNull end.
Definition js_of_text (o : option string) : jsval :=
  match o with Some s => JStr s | None => JNull end.

(** ** Reading a SET list

    [UPDATE t SET <setCols> WHERE key = <var>] is sent as text.  The
    database reads the SET list as comma-separated assignments of a
    parameter to a quoted column name. *)

Inductive set_state : Type :=
| AtQuote
| InName (name : string)
| AtEquals (col : string)
| AtDollar (col : string)
| InIndex (col : string) (n : option nat)
| AtBlank.

Fixpoint read_set (st : set_state) (s : string) (acc : list (string * nat))
    : option (list (string * nat)) :=
  match s with
  | EmptyString =>
      match st with
      | InIndex col (Some n) => Some (acc ++ [(col, n)])
      | _ => None
      end
  | String c s' =>
      match st with
      | AtQuote =>
          if Ascii.eqb c (ascii_of_nat 34) then read_set (InName "") s' acc
          else None
      | InName name =>
          if Ascii.eqb c (ascii_of_nat 34) then
            if String.eqb name "" then None else read_set (AtEquals name) s' acc
          else read_set (InName (name +:+ String c "")) s' acc
      | AtEquals col =>
          if Ascii.eqb c "="%char then read_set (AtDollar col) s' acc else None
      | AtDollar col =>
          if Ascii.eqb c "$"%char then read_set (InIndex col None) s' acc
          else None
      | InIndex col n =>
          if is_digit c then
            read_set (InIndex col (push_digit n c)) s' acc
          else if Ascii.eqb c ","%char then
            match n with
            | Some k => read_set AtBlank s' (acc ++ [(col, k)])
            | None => None
            end
          else None
      | AtBlank =>
          if Ascii.eqb c " "%char then read_set AtQuote s' acc else None
      end
  end.

Definition read_set_list (s : string) : option (list (string * nat)) :=
  read_set AtQuote s [].

(** [$k] *)
Fixpoint read_digits (s : string) (n : option nat) : option nat :=
  match s with
  | EmptyString => n
  | String c s' =>
      if is_digit c then read_digits s' (push_digit n c) else None
  end.

Definition read_var (s : string) : option nat :=
  match s with
  | String c s' => if Ascii.eqb c "$"%char then read_digits s' None else None
  | EmptyString => None
  end.

(** The value bound to [$k]: parameters are numbered from 1. *)
Definition param (params : list jsval) (k : nat) : option jsval :=
  match k with
  | O => None
  | S i => params !! i
  end.

Definition bind_params (sets : list (string * nat)) (params : list jsval)
    : option (list (string * jsval)) :=
  mapM (fun '(col, k) => v ← param params k; Some (col, v)) sets.

(** ** Constraints *)

(** Modelled from the spec: the DDL is not among the sources; by the data
    model's invariants a company's handle is unique, a job's id is its
    identity and its companyHandle refers to an existing company.  The
    database checks this when a statement has written a row. *)

Definition consistent (d : db) : bool :=
  bool_decide (NoDup (map j_id (jobs d)))
  && bool_decide (NoDup (map c_handle (companies d)))
  && forallb (fun r => bool_decide (j_company_handle r ∈ map c_handle (companies d)))
             (jobs d).

(** [col = $k] for a key column: true on the rows whose key is the
    parameter; a NULL parameter equals nothing. *)
Definition eq_param {K : Type} `{EqDecision K} (col : K) (p : option K) : bool :=
  match p with
  | Some k => bool_decide (col = k)
  | None => false
  end.

(** [col >= $k] and [col <= $k] on a nullable integer column. *)
Definition ge_param (col p : option Z) : bool :=
  match col, p with
  | Some x, Some n => n <=? x
  | _, _ => false
  end.
Definition le_param (col p : option Z) : bool :=
  match col, p with
  | Some x, Some n => x <=? n
  | _, _ => false
  end.

(** [result.rows[0]] *)
Definition first_row (rows : list obj) : jsval :=
  match rows with
  | r :: _ => JObj r
  | [] => JUndefined
  end.

(** ** UPDATE, for either table *)

(** Rows hit by an UPDATE are rewritten by [f], which may refuse a row;
    the rewritten table comes with the rows that were written. *)
Fixpoint update_where {R : Type} (hit : R -> bool) (f : R -> option R)
    (l : list R) : option (list R * list R) :=
  match l with
  | [] => Some ([], [])
  | r :: l' =>
      match update_where hit f l' with
      | None => None
      | Some (l'', written) =>
          if hit r then
            match f r with
            | Some r' => Some (r' :: l'', r' :: written)
            | None => None
            end
          else Some (r :: l'', written)
      end
  end.

Section Update.
Context {R S K : Type} `{EqDecision K}.
(** An assignment read at the type of its column; writing it to a row;
    the key parameter read at the type of the key column; a row's key. *)
Context (read_col : string * jsval -> option S).
Context (write_col : R -> S -> option R).
Context (read_key : jsval -> option (option K)).
Context (key : R -> K).

(** [UPDATE t SET <setCols> WHERE key = <var>] is analysed before any row
    is touched: a SET list that does not read, an unknown or repeated
    column, a missing parameter or one that is no literal of its column's
    type rejects the statement whether or not a row has the key. *)
Definition analyse_update (setCols var : string) (params : list jsval)
    : option (list S * option K) :=
  sets ← read_set_list setCols;
  k ← read_var var;
  bound ← bind_params sets params;
  typed ← mapM read_col bound;
  target ← param params k ≫= read_key;
  guard (NoDup (map fst sets));;
  Some (typed, target).

(** The assignments of a SET list, each to a column of its own. *)
Definition write_cols (typed : list S) (r : R) : option R :=
  foldl (fun acc a => r' ← acc; write_col r' a) (Some r) typed.

Definition rewrite_rows (typed : list S) (target : option K) (rows : list R)
    : option (list R * list R) :=
  update_where (fun r => eq_param (key r) target) (write_cols typed) rows.

End Update.

(** ** Statements on [jobs] *)

(** The select list [title, salary, equity, company_Handle AS companyHandle]
    (the alias is quoted, so it keeps its capital). *)
Definition job_obj (r : job_row) : obj :=
  [("title", JStr (j_title r));
   ("salary", js_of_int (j_salary r));
   ("equity", js_of_text (j_equity r));
   ("companyHandle", JStr (j_company_handle r))].

Definition by_title (a b : job_row) : bool := String.leb (j_title a) (j_title b).
Definition by_salary (a b : job_row) : bool :=
  null_last_leb (j_salary a) (j_salary b).

(** No ORDER BY: rows come in heap order. *)
Definition unordered {A : Type} (l : list A) : list A := l.

(** [SELECT <select list> FROM jobs WHERE cond ORDER BY ...] *)
Definition select_jobs (cond : job_row -> bool)
    (order : list job_row -> list job_row) : db -> res (list obj * db) :=
  reading (fun d => Ok (map job_obj (order (List.filter cond (jobs d))))).

(** [INSERT INTO jobs (title, salary, equity, company_Handle)
     VALUES ($1, $2, $3, $4) RETURNING <select list>]; the id is drawn from
    the sequence.  (A rejected statement leaves the whole store as it was,
    the sequence included.) *)
Definition insert_job (params : list jsval) (d : db) : res (list obj * db) :=
  match params with
  | [t; s; e; h] =>
      match pg_text t, pg_int s, pg_numeric e, pg_text h with
      | Some (Some ti), Some sa, Some eq, Some (Some ha) =>
          let r := JobRow (jobs_id_seq d) ti sa eq ha in
          let d' := Db (jobs d ++ [r]) (companies d) (jobs_id_seq d + 1) in
          if consistent d' then Ok ([job_obj r], d') else Err DatabaseError
      | _, _, _, _ => Err DatabaseError
      end
  | _ => Err DatabaseError
  end.

(** An assignment of the SET list, read at the type of its column. *)
Inductive job_set : Type :=
| SetId (n : option Z)
| SetTitle (s : option string)
| SetSalary (n : option Z)
| SetEquity (s : option string)
| SetCompanyHandle (s : option string).

(** The columns of [jobs] by their stored names; a quoted identifier
    names a column only if it is spelled exactly so. *)
Definition read_job_set (a : string * jsval) : option job_set :=
  let '(col, v) := a in
  if String.eqb col "id" then SetId <$> pg_int v
  else if String.eqb col "title" then SetTitle <$> pg_text v
  else if String.eqb col "salary" then SetSalary <$> pg_int v
  else if String.eqb col "equity" then SetEquity <$> pg_numeric v
  else if String.eqb col "company_handle" then SetCompanyHandle <$> pg_text v
  else None.

(** Writing one assignment to a row; id, title and company_handle are
    NOT NULL. *)
Definition write_job_set (r : job_row) (a : job_set) : option job_row :=
  match a with
  | SetId (Some n) =>
      Some (JobRow n (j_title r) (j_salary r) (j_equity r) (j_company_handle r))
  | SetTitle (Some s) =>
      Some (JobRow (j_id r) s (j_salary r) (j_equity r) (j_company_handle r))
  | SetSalary n =>
      Some (JobRow (j_id r) (j_title r) n (j_equity r) (j_company_handle r))
  | SetEquity s =>
      Some (JobRow (j_id r) (j_title r) (j_salary r) s (j_company_handle r))
  | SetCompanyHandle (Some s) =>
      Some (JobRow (j_id r) (j_title r) (j_salary r) (j_equity r) s)
  | SetId None | SetTitle None | SetCompanyHandle None => None
  end.

(** [UPDATE jobs SET <setCols> WHERE id = <var> RETURNING <select list>] *)
Definition update_jobs (setCols var : string) (params : list jsval) (d : db)
    : res (list obj * db) :=
  match analyse_update read_job_set pg_int setCols var params with
  | None => Err DatabaseError
  | Some (typed, target) =>
      match rewrite_rows write_job_set j_id typed target (jobs d) with
      | None => Err DatabaseError
      | Some (jobs', written) =>
          let d' := Db jobs' (companies d) (jobs_id_seq d) in
          if bool_decide (written = []) || consistent d'
          then Ok (map job_obj written, d')
          else Err DatabaseError
      end
  end.

(** [DELETE FROM jobs WHERE id = $1 RETURNING id] *)
Definition delete_jobs (params : list jsval) (d : db) : res (list obj * db) :=
  match param params 1 ≫= pg_int with
  | None => Err DatabaseError
  | Some target =>
      let hit r := eq_param (j_id r) target in
      Ok (map (fun r => [("id", JNum (j_id r))]) (List.filter hit (jobs d)),
          Db (List.filter (fun r => negb (hit r)) (jobs d))
             (companies d) (jobs_id_seq d))
  end.

(** [SELECT <select list> FROM jobs WHERE id = $1] *)
Definition select_job_by_id (params : list jsval) (d : db)
    : res (list obj * db) :=
  match param params 1 ≫= pg_int with
  | None => Err DatabaseError
  | Some target =>
      select_jobs (fun r => eq_param (j_id r) target) unordered d
  end.

(** [SELECT <select list> FROM jobs WHERE salary >= $1 ORDER BY salary] *)
Definition select_jobs_min_salary (params : list jsval) (d : db)
    : res (list obj * db) :=
  match param params 1 ≫= pg_int with
  | None => Err DatabaseError
  | Some n =>
      select_jobs (fun r => ge_param (j_salary r) n) (order_by by_salary) d
  end.

(** [SELECT <select list> FROM jobs WHERE LOWER(title) LIKE $1
     ORDER BY title] *)
Definition select_jobs_title_like (params : list jsval) (d : db)
    : res (list obj * db) :=
  match param params 1 ≫= pg_text with
  | Some (Some pattern) =>
      select_jobs (fun r => like pattern (toLowerCase (j_title r)))
                  (order_by by_title) d
  | Some None => select_jobs (fun _ => false) (order_by by_title) d
  | None => Err DatabaseError
  end.

(** ** models/job.js *)

Module Job.

Definition create (data : obj) : M jsval :=
  let title := obj_get data "title" in
  let salary := obj_get data "salary" in
  let equity := obj_get data "equity" in
  let companyHandle := obj_get data "companyHandle" in
  result ← query (INSERT Jobs) (insert_job [title; salary; equity; companyHandle]);
  let job := first_row result in
  mret job.

Definition findAll : M (list obj) :=
  jobsRes ← query (SELECT Jobs) (select_jobs (fun _ => true) (order_by by_title));
  mret jobsRes.

(** [str.toLowerCase()] throws unless [str] is a string.  The test
    [if (!jobRes)] on the result object never fires. *)
Definition title_filter (str : jsval) : M (list obj) :=
  match str with
  | JStr s =>
      let lower := toLowerCase s in
      jobRes ← query (SELECT Jobs)
        (select_jobs_title_like [JStr ("%" +:+ lower +:+ "%")]);
      mret jobRes
  | _ => throw TypeError
  end.

Definition minSalary_filter (num : jsval) : M (list obj) :=
  jobRes ← query (SELECT Jobs) (select_jobs_min_salary [num]);
  mret jobRes.

Definition hasEquity_filter (hasEquity : jsval) : M (list obj) :=
  if truthy hasEquity && negb (is_boolean hasEquity) then throw BadRequestError
  else
    jobRes ← query (SELECT Jobs)
      (select_jobs
         (fun r => if truthy hasEquity then bool_decide (is_Some (j_equity r))
                   else true)
         (order_by by_title));
    mret jobRes.

Definition multi_filter (str minSalary hasEquity : jsval) : M (list obj) :=
  titleRes ← (if truthy str then title_filter str else findAll);
  minSalaryRes ← (if truthy minSalary then minSalary_filter minSalary
                  else findAll);
  equityRes ← (if truthy hasEquity then hasEquity_filter hasEquity
               else findAll);
  let common :=
    List.filter
      (fun job =>
         existsb (fun minSalaryJob =>
                    strict_eq (obj_get minSalaryJob "title") (obj_get job "title"))
                 minSalaryRes
         && existsb (fun hasEquityJob =>
                       strict_eq (obj_get hasEquityJob "title") (obj_get job "title"))
                    equityRes)
      titleRes in
  mret common.

(** The three comparison sets of [multi_filter], by name. *)
Definition title_set (str : jsval) : M (list obj) :=
  if truthy str then title_filter str else findAll.
Definition salary_set (minSalary : jsval) : M (list obj) :=
  if truthy minSalary then minSalary_filter minSalary else findAll.
Definition equity_set (hasEquity : jsval) : M (list obj) :=
  if truthy hasEquity then hasEquity_filter hasEquity else findAll.

Definition get (id : jsval) : M jsval :=
  jobRes ← query (SELECT Jobs) (select_job_by_id [id]);
  let job := first_row jobRes in
  if negb (truthy job) then throw NotFoundError
  else mret job.

Definition update (id : jsval) (data : obj) : M jsval :=
  match Sql.sqlForPartialUpdate data {[ "companyHandle" := "company_Handle" ]} with
  | Err e => throw e
  | Ok u =>
      let handleVarIdx := "$" +:+ dec (length (Sql.values u) + 1) in
      result ← query (UPDATE Jobs)
        (update_jobs (Sql.setCols u) handleVarIdx (Sql.values u ++ [id]));
      let job := first_row result in
      if negb (truthy job) then throw NotFoundError
      else mret job
  end.

Definition remove (id : jsval) : M unit :=
  result ← query (DELETE Jobs) (delete_jobs [id]);
  let job := first_row result in
  if negb (truthy job) then throw NotFoundError
  else mret tt.

End Job.

(** ** Statements on [companies] *)

(** The select list [handle, name, description,
    num_employees AS numEmployees, logo_url AS logoUrl]. *)
Definition company_obj (r : company_row) : obj :=
  [("handle", JStr (c_handle r));
   ("name", JStr (c_name r));
   ("description", JStr (c_description r));
   ("numEmployees", js_of_int (c_num_employees r));
   ("logoUrl", js_of_text (c_logo_url r))].

Definition by_name (a b : company_row) : bool := String.leb (c_name a) (c_name b).
Definition by_num_employees (a b : company_row) : bool :=
  null_last_leb (c_num_employees a) (c_num_employees b).

(** [SELECT <select list> FROM companies WHERE cond ORDER BY ...] *)
Definition select_companies (cond : company_row -> bool)
    (order : list company_row -> list company_row) : db -> res (list obj * db) :=
  reading (fun d => Ok (map company_obj (order (List.filter cond (companies d))))).

(** [... WHERE LOWER(name) LIKE $1 ORDER BY name] *)
Definition select_companies_name_like (params : list jsval) (d : db)
    : res (list obj * db) :=
  match param params 1 ≫= pg_text with
  | Some (Some pattern) =>
      select_companies (fun r => like pattern (toLowerCase (c_name r)))
                       (order_by by_name) d
  | Some None => select_companies (fun _ => false) (order_by by_name) d
  | None => Err DatabaseError
  end.

(** [... WHERE num_employees >= $1 ORDER BY num_employees] *)
Definition select_companies_min (params : list jsval) (d : db)
    : res (list obj * db) :=
  match param params 1 ≫= pg_int with
  | None => Err DatabaseError
  | Some n =>
      select_companies (fun r => ge_param (c_num_employees r) n)
                       (order_by by_num_employees) d
  end.

(** [... WHERE num_employees <= $1 ORDER BY num_employees] *)
Definition select_companies_max (params : list jsval) (d : db)
    : res (list obj * db) :=
  match param params 1 ≫= pg_int with
  | None => Err DatabaseError
  | Some n =>
      select_companies (fun r => le_param (c_num_employees r) n)
                       (order_by by_num_employees) d
  end.

(** [... WHERE handle = $1] *)
Definition select_company_by_handle (params : list jsval) (d : db)
    : res (list obj * db) :=
  match param params 1 ≫= pg_text with
  | None => Err DatabaseError
  | Some target =>
      select_companies (fun r => eq_param (c_handle r) target) unordered d
  end.

(** [SELECT <job select list> FROM jobs WHERE company_handle = $1
     ORDER BY title] *)
Definition select_jobs_of_company (params : list jsval) (d : db)
    : res (list obj * db) :=
  match param params 1 ≫= pg_text with
  | None => Err DatabaseError
  | Some target =>
      select_jobs (fun r => eq_param (j_company_handle r) target)
                  (order_by by_title) d
  end.

Inductive company_set : Type :=
| SetHandle (s : option string)
| SetName (s : option string)
| SetDescription (s : option string)
| SetNumEmployees (n : option Z)
| SetLogoUrl (s : option string).

Definition read_company_set (a : string * jsval) : option company_set :=
  let '(col, v) := a in
  if String.eqb col "handle" then SetHandle <$> pg_text v
  else if String.eqb col "name" then SetName <$> pg_text v
  else if String.eqb col "description" then SetDescription <$> pg_text v
  else if String.eqb col "num_employees" then SetNumEmployees <$> pg_int v
  else if String.eqb col "logo_url" then SetLogoUrl <$> pg_text v
  else None.

(** handle, name and description are NOT NULL. *)
Definition write_company_set (r : company_row) (a : company_set)
    : option company_row :=
  match a with
  | SetHandle (Some s) =>
      Some (CompanyRow s (c_name r) (c_description r)
                       (c_num_employees r) (c_logo_url r))
  | SetName (Some s) =>
      Some (CompanyRow (c_handle r) s (c_description r)
                       (c_num_employees r) (c_logo_url r))
  | SetDescription (Some s) =>
      Some (CompanyRow (c_handle r) (c_name r) s
                       (c_num_employees r) (c_logo_url r))
  | SetNumEmployees n =>
      Some (CompanyRow (c_handle r) (c_name r) (c_description r)
                       n (c_logo_url r))
  | SetLogoUrl s =>
      Some (CompanyRow (c_handle r) (c_name r) (c_description r)
                       (c_num_employees r) s)
  | SetHandle None | SetName None | SetDescription None => None
  end.

(** [UPDATE companies SET <setCols> WHERE handle = <var>
     RETURNING <select list>] *)
Definition update_companies (setCols var : string) (params : list jsval)
    (d : db) : res (list obj * db) :=
  match analyse_update read_company_set pg_text setCols var params with
  | None => Err DatabaseError
  | Some (typed, target) =>
      match rewrite_rows write_company_set c_handle typed target (companies d) with
      | None => Err DatabaseError
      | Some (companies', written) =>
          let d' := Db (jobs d) companies' (jobs_id_seq d) in
          if bool_decide (written = []) || consistent d'
          then Ok (map company_obj written, d')
          else Err DatabaseError
      end
  end.

(** Modelled from the spec: the DDL is not among the sources; by the data
    model, deleting a company cascades to its jobs, which the schema
    enforces.  The jobs left when the company [target] goes. *)
Definition cascade_jobs (target : option string) (js : list job_row)
    : list job_row :=
  List.filter (fun j => negb (eq_param (j_company_handle j) target)) js.

(** [DELETE FROM companies WHERE handle = $1 RETURNING handle] *)
Definition delete_companies (params : list jsval) (d : db)
    : res (list obj * db) :=
  match param params 1 ≫= pg_text with
  | None => Err DatabaseError
  | Some target =>
      let hit r := eq_param (c_handle r) target in
      Ok (map (fun r => [("handle", JStr (c_handle r))])
              (List.filter hit (companies d)),
          Db (cascade_jobs target (jobs d))
             (List.filter (fun r => negb (hit r)) (companies d))
             (jobs_id_seq d))
  end.

(** [SELECT handle FROM companies WHERE handle = $1] *)
Definition select_company_handle (params : list jsval) (d : db)
    : res (list obj * db) :=
  match param params 1 ≫= pg_text with
  | None => Err DatabaseError
  | Some target =>
      reading
        (fun d => Ok (map (fun r => [("handle", JStr (c_handle r))])
                        (List.filter (fun r => eq_param (c_handle r) target)
                                     (companies d)))) d
  end.

(** [INSERT INTO companies (handle, name, description, num_employees,
     logo_url) VALUES ($1, $2, $3, $4, $5) RETURNING <select list>];
    handle, name and description are NOT NULL. *)
Definition insert_company (params : list jsval) (d : db)
    : res (list obj * db) :=
  match params with
  | [h; n; de; ne; lo] =>
      match pg_text h, pg_text n, pg_text de, pg_int ne, pg_text lo with
      | Some (Some ha), Some (Some na), Some (Some des), Some num, Some logo =>
          let r := CompanyRow ha na des num logo in
          let d' := Db (jobs d) (companies d ++ [r]) (jobs_id_seq d) in
          if consistent d' then Ok ([company_obj r], d') else Err DatabaseError
      | _, _, _, _, _ => Err DatabaseError
      end
  | _ => Err DatabaseError
  end.

(** ** models/company.js *)

(** [v[k] = x] on an object. *)
Definition assign (v : jsval) (k : string) (x : jsval) : jsval :=
  match v with
  | JObj o => JObj (obj_set o k x)
  | _ => v
  end.

Module Company.

Definition create (data : obj) : M jsval :=
  let handle := obj_get data "handle" in
  let name := obj_get data "name" in
  let description := obj_get data "description" in
  let numEmployees := obj_get data "numEmployees" in
  let logoUrl := obj_get data "logoUrl" in
  duplicateCheck ← query (SELECT Companies) (select_company_handle [handle]);
  if truthy (first_row duplicateCheck) then throw BadRequestError
  else
    result ← query (INSERT Companies)
      (insert_company [handle; name; description; numEmployees; logoUrl]);
    let company := first_row result in
    mret company.

Definition findAll : M (list obj) :=
  companiesRes ← query (SELECT Companies)
    (select_companies (fun _ => true) (order_by by_name));
  mret companiesRes.

Definition name_filter (str : jsval) : M (list obj) :=
  match str with
  | JStr s =>
      let lower := toLowerCase s in
      companiesRes ← query (SELECT Companies)
        (select_companies_name_like [JStr ("%" +:+ lower +:+ "%")]);
      mret companiesRes
  | _ => throw TypeError
  end.

Definition minEmployees_filter (num : jsval) : M (list obj) :=
  companiesRes ← query (SELECT Companies) (select_companies_min [num]);
  mret companiesRes.

Definition maxEmployees_filter (num : jsval) : M (list obj) :=
  companiesRes ← query (SELECT Companies) (select_companies_max [num]);
  mret companiesRes.

Definition multi_filter (str min max : jsval) : M (list obj) :=
  nameResults ← (if truthy str then name_filter str else findAll);
  minResults ← (if truthy min then minEmployees_filter min else findAll);
  maxResults ← (if truthy max then maxEmployees_filter max else findAll);
  let common :=
    List.filter
      (fun company =>
         existsb (fun minCompany =>
                    strict_eq (obj_get minCompany "name") (obj_get company "name"))
                 minResults
         && existsb (fun maxCompany =>
                       strict_eq (obj_get maxCompany "name") (obj_get company "name"))
                    maxResults)
      nameResults in
  mret common.


Definition get (handle : jsval) : M jsval :=
  companyRes ← query (SELECT Companies) (select_company_by_handle [handle]);
  let company := first_row companyRes in
  if negb (truthy company) then throw NotFoundError
  else
    jobsRes ← query (SELECT Jobs) (select_jobs_of_company [handle]);
    let company := assign company "jobs" (JArr (map JObj jobsRes)) in
    mret company.

Definition update (handle : jsval) (data : obj) : M jsval :=
  match Sql.sqlForPartialUpdate data
          (<["numEmployees" := "num_employees"]> {[ "logoUrl" := "logo_url" ]}) with
  | Err e => throw e
  | Ok u =>
      let handleVarIdx := "$" +:+ dec (length (Sql.values u) + 1) in
      result ← query (UPDATE Companies)
        (update_companies (Sql.setCols u) handleVarIdx (Sql.values u ++ [handle]));
      let company := first_row result in
      if negb (truthy company) then throw NotFoundError
      else mret company
  end.

Definition remove (handle : jsval) : M unit :=
  result ← query (DELETE Companies) (delete_companies [handle]);
  let company := first_row result in
  if negb (truthy company) then throw NotFoundError
  else mret tt.

End Company.

(** ** Routes *)

(** Modelled from the spec: expressError.js and the error handler of
    app.js are not among the sources; by the error taxonomy a validation
    error answers 400, a not-found error 404, anything unhandled 500. *)
Definition status_of_error (e : error) : Z :=
  match e with
  | BadRequestError => 400
  | NotFoundError => 404
  | TypeError | DatabaseError => 500
  end.

(** What a request is answered with: [res.json(body)], or the status of
    the error passed to [next]. *)
Inductive response : Type :=
| Json (body : jsval)
| Failed (status : Z).

Definition respond (handler : M jsval) (w : world) : response * world :=
  match handler w with
  | (Ok body, w') => (Json body, w')
  | (Err e, w') => (Failed (status_of_error e), w')
  end.


(** [router.get("/")] of routes/jobs.js; [q] is [req.query]. *)
Definition get_jobs (q : obj) : M jsval :=
  let hasEquity := strict_eq (obj_get q "hasEquity") (JStr "true") in
  jobs ← Job.multi_filter (obj_get q "title") (obj_get q "minSalary")
                          (JBool hasEquity);
  mret (JObj [("jobs", JArr (map JObj jobs))]).

(** [router.get("/:id")]; [params] is [req.params]. *)
Definition get_job (params : obj) : M jsval :=
  job ← Job.get (obj_get params "id");
  mret (JObj [("job", job)]).

(** The handler of [router.delete("/:id")], past its middleware. *)
Definition delete_job (params : obj) : M jsval :=
  _ ← Job.remove (obj_get params "id");
  mret (JObj [("deleted", obj_get params "title")]).

(** What [res.json] puts on the wire, read back: [JSON.stringify] leaves
    out a property whose value is undefined and writes an undefined array
    element as null. *)
Fixpoint json (v : jsval) : jsval :=
  match v with
  | JArr xs =>
      JArr (map (fun x => match json x with JUndefined => JNull | y => y end) xs)
  | JObj fields =>
      JObj (List.filter
              (fun kv => match snd kv with JUndefined => false | _ => true end)
              (map (fun kv => match kv with (k, x) => (k, json x) end) fields))
  | _ => v
  end.

(** A query value read as a number. *)
Definition number_of (v : jsval) : option Z :=
  match v with
  | JNum n => Some n
  | JStr s => parse_int s
  | _ => None
  end.

(** Modelled from the spec: the handler of GET /companies
    (routes/companies.js) is not among the sources.  By the spec, when
    minEmployees and maxEmployees are both supplied they must satisfy
    min <= max or the request is rejected with 400, no query executed;
    otherwise the three criteria go to [Company.multi_filter]. *)
Definition get_companies (q : obj) : M jsval :=
  let min := obj_get q "minEmployees" in
  let max := obj_get q "maxEmployees" in
  match number_of min, number_of max with
  | Some a, Some b =>
      if b <? a then throw BadRequestError
      else
        companies ← Company.multi_filter (obj_get q "name") min max;
        mret (JObj [("companies", JArr (map JObj companies))])
  | _, _ =>
      companies ← Company.multi_filter (obj_get q "name") min max;
      mret (JObj [("companies", JArr (map JObj companies))])
  end.

(** ** The properties, in the specification's words *)

Module Claimed.

(** Column-name translation: the entry of [jsToSql] for the field, or the
    field name itself when no entry exists. *)
Definition column (jsToSql : gmap string string) (field : string) : string :=
  default field (jsToSql !! field).

(** Column-name translation by an entry that is there and not empty, the
    field name itself otherwise. *)
Definition column_or_field (jsToSql : gmap string string) (field : string)
    : string :=
  match jsToSql !! field with
  | Some c => if decide (c = "") then field else c
  | None => field
  end.

(** Every field either has an entry of its own in [jsToSql] or is not
    named like a property that every object inherits. *)
Definition own_columns (jsToSql : gmap string string) (data : obj) : Prop :=
  List.Forall (fun f => is_Some (jsToSql !! f) \/ Sql.inherited f = None)
              (obj_keys data).

(** [u] holds the comma-joined fragments, one per field of [data] in its
    iteration order and numbered from 1, each the quoted column [col f],
    [=$] and its number, and the values of [data] in the same order. *)
Definition partial_update_of (col : string -> string) (data : obj)
    (u : Sql.partial_update) : Prop :=
  exists frags : list string,
    length frags = length data
    /\ (forall (i : nat) f v, data !! i = Some (f, v) ->
          frags !! i = Some (dquote +:+ col f +:+ dquote +:+ "=$" +:+ dec (i + 1))
          /\ Sql.values u !! i = Some v)
    /\ length (Sql.values u) = length data
    /\ Sql.setCols u = join ", " frags.

(** The fields of a job as the model hands it out. *)
Definition job_fields (o : obj) : Prop :=
  obj_keys o = ["title"; "salary"; "equity"; "companyHandle"].
Definition job_value (v : jsval) : Prop :=
  exists o, v = JObj o /\ job_fields o.

(** [needle] is a substring of [hay]. *)
Fixpoint startsb (needle hay : string) : bool :=
  match needle, hay with
  | EmptyString, _ => true
  | String a n', String b h' => Ascii.eqb a b && startsb n' h'
  | String _ _, EmptyString => false
  end.
Fixpoint containsb (needle hay : string) : bool :=
  startsb needle hay
  || match hay with
     | EmptyString => false
     | String _ h' => containsb needle h'
     end.

(** Case-insensitive substring match, by lowercasing both sides. *)
Definition icontainsb (needle hay : string) : bool :=
  containsb (toLowerCase needle) (toLowerCase hay).

(** A search string with none of the characters LIKE reads specially. *)
Fixpoint plain (s : string) : bool :=
  match s with
  | EmptyString => true
  | String c s' =>
      negb (Ascii.eqb c percent) && negb (Ascii.eqb c underscore)
      && negb (Ascii.eqb c backslash) && plain s'
  end.

(** A criterion is supplied when its argument is truthy, which is what
    [multi_filter] tests. *)
Definition supplied (v : jsval) : bool := truthy v.


Definition job_equity_set (hasEquity : bool) (js : list job_row)
    : list job_row :=
  if hasEquity
  then List.filter (fun r => match j_equity r with
                             | Some _ => true
                             | None => false
                             end) js
  else js.



(** A job satisfies every supplied criterion; the rows that do. *)
Definition job_satisfies (str : jsval) (n : option Z) (hasEquity : bool)
    (r : job_row) : bool :=
  match str with
  | JStr s => if supplied str then icontainsb s (j_title r) else true
  | _ => true
  end
  && match n with
     | Some n => match j_salary r with Some x => x >=? n | None => false end
     | None => true
     end
  && (if hasEquity then match j_equity r with Some _ => true | None => false end
      else true).
Definition job_intersection (str : jsval) (n : option Z) (hasEquity : bool)
    (js : list job_row) : list job_row :=
  List.filter (job_satisfies str n hasEquity) js.

(** GET /jobs when the equity flag plays no part: the title and salary
    sets are compared, the third query runs and is not looked at. *)
Definition get_jobs_unrestricted (q : obj) : M jsval :=
  titleRes ← Job.title_set (obj_get q "title");
  minSalaryRes ← Job.salary_set (obj_get q "minSalary");
  _ ← Job.findAll;
  mret (JObj [("jobs",
    JArr (map JObj
      (List.filter
         (fun job =>
            existsb (fun m => strict_eq (obj_get m "title") (obj_get job "title"))
                    minSalaryRes)
         titleRes)))]).

(** GET /jobs with the equity filter on: the title and salary sets are
    compared with what [hasEquity_filter] returns for [true], and a job of
    the title set is kept when its title is in both. *)
Definition get_jobs_equity (q : obj) : M jsval :=
  titleRes ← Job.title_set (obj_get q "title");
  minSalaryRes ← Job.salary_set (obj_get q "minSalary");
  equityRes ← Job.hasEquity_filter (JBool true);
  mret (JObj [("jobs",
    JArr (map JObj
      (List.filter
         (fun job =>
            existsb (fun m => strict_eq (obj_get m "title") (obj_get job "title"))
                    minSalaryRes
            && existsb (fun m => strict_eq (obj_get m "title")
                                           (obj_get job "title"))
                       equityRes)
         titleRes)))]).

(** A field of a partial-update body that names an updatable column of a
    job and holds a value of the column's type. *)
Definition job_field_ok (kv : string * jsval) : bool :=
  let '(k, v) := kv in
  if String.eqb k "title" then
    match v with JStr _ => true | _ => false end
  else if String.eqb k "salary" then
    match v with JNull => true | JNum n => int4 n | _ => false end
  else if String.eqb k "equity" then
    match v with JNull => true | JStr s => numeric_literal s | _ => false end
  else false.


(** A partial-update body: an object (its keys are distinct) with at
    least one field, every field as above. *)
Definition update_body (field_ok : string * jsval -> bool) (data : obj) : bool :=
  negb (Nat.eqb (length data) 0)
  && forallb field_ok data
  && bool_decide (NoDup (obj_keys data)).

(** The stored row shows each field named in [data] at the supplied
    value. *)
Definition fields_set {R : Type} (view : R -> obj) (data : obj) (r : R) : Prop :=
  forall f v, In (f, v) data -> obj_get (view r) f = v.

(** The stored row shows every field not named in [data] as [r0] did. *)
Definition fields_kept {R : Type} (view : R -> obj) (data : obj) (r0 r : R)
    : Prop :=
  forall f, ~ In f (obj_keys data) -> obj_get (view r) f = obj_get (view r0) f.



(** A row has the key. *)
Definition has_job (k : Z) (d : db) : Prop :=
  exists r, In r (jobs d) /\ j_id r = k.
Definition has_company (h : string) (d : db) : Prop :=
  exists r, In r (companies d) /\ c_handle r = h.


(** The jobs of a company, as its nested array. *)
Definition jobs_of (h : string) (d : db) : jsval :=
  JArr (map JObj (map job_obj
    (order_by by_title
       (List.filter (fun j => bool_decide (j_company_handle j = h)) (jobs d))))).

End Claimed.

(** ** Sample stores *)

(** The store of the test suite: jobs j1 to j4 of companies c1 to c3. *)
Definition jobly_store : db :=
  Db [JobRow 1 "j1" (Some 1000) (Some "0.1") "c1";
      JobRow 2 "j2" (Some 2000) (Some "0.2") "c2";
      JobRow 3 "j3" (Some 3000) (Some "0.3") "c3";
      JobRow 4 "j4" (Some 4000) None "c3"]
     [CompanyRow "c1" "C1" "Desc1" (Some 1) (Some "http://c1.img");
      CompanyRow "c2" "C2" "Desc2" (Some 2) (Some "http://c2.img");
      CompanyRow "c3" "C3" "Desc3" (Some 3) None]
     5.

(** Two jobs with one title: one well paid without equity, one with
    equity and a low salary. *)
Definition dev_store : db :=
  Db [JobRow 1 "dev" (Some 5000) None "c1";
      JobRow 2 "dev" (Some 1000) (Some "0.1") "c2"]
     [CompanyRow "c1" "C1" "Desc1" (Some 1) None;
      CompanyRow "c2" "C2" "Desc2" (Some 2) None]
     3.

Definition fresh (d : db) : world := World d [].

(** The world after the statements [s] went out and changed nothing. *)
Definition asked (w : world) (s : list stmt) : world :=
  World (store w) (sent w ++ s).

(** ** Auxiliary definitions *)

(** Job rows under the job select list. *)
Definition job_rows (rows : list obj) : Prop :=
  exists rs : list job_row, rows = map job_obj rs.

(** The value the digits [d] add to a running index. *)
Definition acc_uint (d : Decimal.uint) (n : option nat) : option nat :=
  match d with
  | Decimal.Nil => n
  | _ => Some (Nat.of_uint_acc d (default 0%nat n))
  end.

(** An identifier that holds no double quote. *)
Fixpoint quote_free (s : string) : bool :=
  match s with
  | EmptyString => true
  | String c s' => negb (Ascii.eqb c (ascii_of_nat 34)) && quote_free s'
  end.

(** The name translations of Job.update and Company.update. *)
Abbreviation job_columns :=
  ({[ "companyHandle" := "company_Handle" ]} : gmap string string).
Abbreviation company_columns :=
  (<["numEmployees" := "num_employees"]> {[ "logoUrl" := "logo_url" ]}
   : gmap string string).

(** What no write of a valid field changes. *)
Definition job_kept (r r1 : job_row) : Prop :=
  j_id r1 = j_id r /\ j_company_handle r1 = j_company_handle r.


(** A call that leaves both tables and the sequence as they were,
    whatever it resolves or rejects with. *)
Definition reads_only {A : Type} (m : M A) : Prop :=
  forall w, store (snd (m w)) = store w.







(** * Properties *)

(** ** Lists *)

(** Stdlib's [map] is stdpp's [fmap] on lists. *)
Lemma map_fmap {A B : Type} (f : A -> B) (l : list A) : map f l = f <$> l.
Proof. reflexivity. Qed.

(** ** helpers/sql.js *)

Lemma column_or_field_correct (jsToSql : gmap string string) (f : string) :
  is_Some (jsToSql !! f) \/ Sql.inherited f = None ->
  Sql.column jsToSql f = Claimed.column_or_field jsToSql f.
Proof.
  unfold Sql.column, Claimed.column_or_field. intros Hown.
  destruct (jsToSql !! f) as [c|].
  - simpl. destruct (decide (c = "")) as [->|Hne]; [reflexivity|].
    destruct (String.eqb_spec c ""); [contradiction|reflexivity].
  - destruct Hown as [[c Hc] | Hnone]; [discriminate|].
    rewrite Hnone. reflexivity.
Qed.

(** C5 (as amended): on a non-empty mapping whose fields have an entry of
    their own or are not named like an inherited property,
    sqlForPartialUpdate returns the comma-joined fragments, quoted column,
    [=$] and a number, one per field in iteration order and numbered from
    1, where the column is the non-empty entry of jsToSql for the field
    and the field name itself otherwise, together with the field values
    in the same order. *)
Theorem sqlForPartialUpdate_fragments (data : obj) (jsToSql : gmap string string) :
  data <> [] ->
  Claimed.own_columns jsToSql data ->
  exists u, Sql.sqlForPartialUpdate data jsToSql = Ok u
    /\ Claimed.partial_update_of (Claimed.column_or_field jsToSql) data u.
Proof.
  intros Hne Hown. unfold Sql.sqlForPartialUpdate, obj_keys.
  rewrite length_map.
  destruct data as [|kv data]; [contradiction|]. cbn [length Nat.eqb].
  eexists; split; [reflexivity|].
  exists (imap (Sql.fragment jsToSql) (map fst (kv :: data))).
  cbn [Sql.setCols Sql.values]. unfold obj_values.
  split; [|split; [|split]].
  - rewrite length_imap, length_map. reflexivity.
  - intros i f v Hi. rewrite !map_fmap. split.
    + rewrite list_lookup_imap, list_lookup_fmap, Hi. simpl.
      unfold Sql.fragment. rewrite column_or_field_correct; [reflexivity|].
      unfold Claimed.own_columns in Hown. rewrite List.Forall_forall in Hown.
      apply Hown. apply (in_map fst _ (f, v)).
      apply list_elem_of_In. eapply list_elem_of_lookup_2. exact Hi.
    + rewrite list_lookup_fmap, Hi. reflexivity.
  - rewrite length_map. reflexivity.
  - reflexivity.
Qed.

(** C5 at work, on the mapping of the helper's own test. *)
Lemma sqlForPartialUpdate_fragments_witness :
  exists u, Sql.sqlForPartialUpdate
              [("firstName", JStr "Aliya"); ("age", JNum 32)]
              (<["firstName" := "first_name"]> {[ "isAdmin" := "is_admin" ]})
            = Ok u
    /\ Sql.setCols u = dquote +:+ "first_name" +:+ dquote +:+ "=$1, "
                       +:+ dquote +:+ "age" +:+ dquote +:+ "=$2"
    /\ Sql.values u = [JStr "Aliya"; JNum 32].
Proof.
  destruct (sqlForPartialUpdate_fragments
              [("firstName", JStr "Aliya"); ("age", JNum 32)]
              (<["firstName" := "first_name"]> {[ "isAdmin" := "is_admin" ]}))
    as (u & Hu & _);
    [discriminate|repeat constructor; right; reflexivity|].
  exists u. split; [exact Hu|].
  vm_compute in Hu. injection Hu as <-. split; reflexivity.
Defined.

(** C5 (as stated) fails when jsToSql has an empty entry for a field: the
    code then falls back to the field name, the claim takes the entry. *)
Lemma sqlForPartialUpdate_empty_entry :
  exists u, Sql.sqlForPartialUpdate [("a", JNum 1)] {[ "a" := "" ]} = Ok u
    /\ ~ Claimed.partial_update_of (Claimed.column {[ "a" := "" ]})
                                   [("a", JNum 1)] u.
Proof.
  eexists; split; [reflexivity|].
  intros (frags & Hlen & Hfrag & _ & Hcols).
  destruct (Hfrag 0%nat "a" (JNum 1) eq_refl) as [H0 _].
  destruct frags as [|x [|y frags]]; try discriminate.
  simpl in H0. injection H0 as ->.
  vm_compute in Hcols. discriminate.
Qed.

(** A field named like a property of [Object.prototype], with no entry of
    its own: the column written is the inherited property, printed, and
    not the field name. *)
Example sqlForPartialUpdate_inherited_column :
  Sql.sqlForPartialUpdate [("constructor", JStr "x")] job_columns
  = Ok {| Sql.setCols := dquote +:+ "function Object() { [native code] }"
                         +:+ dquote +:+ "=$1";
          Sql.values := [JStr "x"] |}.
Proof. reflexivity. Qed.

(** C6: sqlForPartialUpdate throws exactly when the mapping has no field,
    then a BadRequestError; on a mapping with a field it returns. *)
Theorem sqlForPartialUpdate_throws_iff_empty (data : obj) (jsToSql : gmap string string) :
  (Sql.sqlForPartialUpdate data jsToSql = Err BadRequestError <-> obj_keys data = [])
  /\ (forall e, Sql.sqlForPartialUpdate data jsToSql = Err e ->
        e = BadRequestError /\ obj_keys data = [])
  /\ (obj_keys data <> [] ->
        exists u, Sql.sqlForPartialUpdate data jsToSql = Ok u).
Proof.
  unfold Sql.sqlForPartialUpdate.
  destruct (obj_keys data) as [|k ks] eqn:Hk; cbn [length Nat.eqb].
  - split; [tauto|]. split; [intros e [= <-]; tauto | congruence].
  - split; [split; discriminate|]. split; [discriminate | eauto].
Qed.

(** ** Running the monad *)

Ltac run_M :=
  unfold mbind, M_bind, mret, M_ret, throw, query, reading in *.

(** [multi_filter] in terms of its three comparison sets. *)
Lemma job_multi_filter_sets str minSalary hasEquity :
  Job.multi_filter str minSalary hasEquity
  = (titleRes ← Job.title_set str;
     minSalaryRes ← Job.salary_set minSalary;
     equityRes ← Job.equity_set hasEquity;
     mret (List.filter
             (fun job =>
                existsb (fun m => strict_eq (obj_get m "title") (obj_get job "title"))
                        minSalaryRes
                && existsb (fun m => strict_eq (obj_get m "title")
                                               (obj_get job "title"))
                           equityRes)
             titleRes)).
Proof. reflexivity. Qed.


Lemma select_jobs_rows cond order d rows d' :
  select_jobs cond order d = Ok (rows, d') ->
  d' = d /\ rows = map job_obj (order (List.filter cond (jobs d))).
Proof. unfold select_jobs, reading. intros [= <- <-]. split; reflexivity. Qed.

Lemma job_rows_fields rows : job_rows rows -> Forall Claimed.job_fields rows.
Proof.
  intros [rs ->]. apply List.Forall_forall. intros o Ho.
  apply in_map_iff in Ho as (r & <- & _). reflexivity.
Qed.

Lemma first_row_value rows :
  job_rows rows -> truthy (first_row rows) = true ->
  Claimed.job_value (first_row rows).
Proof.
  intros [rs ->] Ht. destruct rs as [|r rs]; [discriminate|].
  exists (job_obj r). split; reflexivity.
Qed.

Lemma insert_job_rows params d rows d' :
  insert_job params d = Ok (rows, d') ->
  job_rows rows /\ truthy (first_row rows) = true.
Proof.
  unfold insert_job. intros H.
  repeat (case_match; try discriminate).
  injection H as <- <-. split; [eexists [_]|]; reflexivity.
Qed.

Lemma update_jobs_rows setCols var params d rows d' :
  update_jobs setCols var params d = Ok (rows, d') -> job_rows rows.
Proof.
  unfold update_jobs. intros H.
  repeat (case_match; try discriminate).
  injection H as <- <-. eexists; reflexivity.
Qed.

Lemma job_selects_rows params d rows d' :
  select_job_by_id params d = Ok (rows, d')
  \/ select_jobs_min_salary params d = Ok (rows, d')
  \/ select_jobs_title_like params d = Ok (rows, d')
  \/ select_jobs_of_company params d = Ok (rows, d') ->
  job_rows rows.
Proof.
  unfold select_job_by_id, select_jobs_min_salary, select_jobs_title_like,
    select_jobs_of_company.
  intros [H|[H|[H|H]]]; repeat (case_match; try discriminate);
    apply select_jobs_rows in H as [_ ->]; eexists; reflexivity.
Qed.

Lemma findAll_rows w rows w' :
  Job.findAll w = (Ok rows, w') -> job_rows rows.
Proof.
  unfold Job.findAll. run_M. intros H.
  destruct (select_jobs _ _ (store w)) as [[rs d']|e] eqn:Hs; [|discriminate].
  apply select_jobs_rows in Hs as [_ ->]. injection H as <- _.
  eexists; reflexivity.
Qed.

Lemma title_set_rows str w rows w' :
  Job.title_set str w = (Ok rows, w') -> job_rows rows.
Proof.
  unfold Job.title_set, Job.title_filter.
  destruct (truthy str); [|apply findAll_rows].
  destruct str; run_M; try discriminate. intros H.
  destruct (select_jobs_title_like _ (store w)) as [[rs d']|e] eqn:Hs;
    [|discriminate].
  injection H as <- _. eapply job_selects_rows; eauto.
Qed.

(** C10: what Job.create, Job.findAll, Job.get, Job.update and
    Job.multi_filter return holds the fields title, salary, equity and
    companyHandle and no other; the id is not among them. *)
Theorem job_results_carry_no_id (w : world) :
  (forall data v w', Job.create data w = (Ok v, w') -> Claimed.job_value v)
  /\ (forall rows w', Job.findAll w = (Ok rows, w') ->
         Forall Claimed.job_fields rows)
  /\ (forall id v w', Job.get id w = (Ok v, w') -> Claimed.job_value v)
  /\ (forall id data v w', Job.update id data w = (Ok v, w') ->
         Claimed.job_value v)
  /\ (forall str minSalary hasEquity rows w',
         Job.multi_filter str minSalary hasEquity w = (Ok rows, w') ->
         Forall Claimed.job_fields rows)
  /\ (forall o, Claimed.job_fields o -> ~ In "id" (obj_keys o)).
Proof.
  repeat apply conj.
  - intros data v w'. unfold Job.create. run_M. intros H.
    destruct (insert_job _ (store w)) as [[rows d']|e] eqn:Hs; [|discriminate].
    injection H as <- _. apply insert_job_rows in Hs as [Hr Ht].
    apply first_row_value; assumption.
  - intros rows w' H. apply job_rows_fields. eapply findAll_rows; eauto.
  - intros id v w'. unfold Job.get. run_M. intros H.
    destruct (select_job_by_id _ (store w)) as [[rows d']|e] eqn:Hs;
      [|discriminate].
    destruct (truthy (first_row rows)) eqn:Ht; simpl in H; [|discriminate].
    injection H as <- _. apply first_row_value; [|assumption].
    eapply job_selects_rows; eauto.
  - intros id data v w'. unfold Job.update.
    destruct (Sql.sqlForPartialUpdate _ _) as [u|e]; run_M; [|discriminate].
    intros H.
    destruct (update_jobs _ _ _ (store w)) as [[rows d']|e] eqn:Hs;
      [|discriminate].
    destruct (truthy (first_row rows)) eqn:Ht; simpl in H; [|discriminate].
    injection H as <- _. apply first_row_value; [|assumption].
    eapply update_jobs_rows; eauto.
  - intros str minSalary hasEquity rows w'. rewrite job_multi_filter_sets.
    unfold mbind at 1, M_bind at 1.
    destruct (Job.title_set str w) as [[titleRes|e] w1] eqn:Ht; [|discriminate].
    run_M.
    destruct (Job.salary_set minSalary w1) as [[minRes|e] w2]; [|discriminate].
    destruct (Job.equity_set hasEquity w2) as [[eqRes|e] w3]; [|discriminate].
    intros [= <- _].
    apply title_set_rows, job_rows_fields in Ht.
    rewrite List.Forall_forall in *. intros o Ho.
    apply filter_In in Ho as [Ho _]. auto.
  - intros o Ho. unfold Claimed.job_fields in Ho. rewrite Ho.
    simpl. intros [H|[H|[H|[H|[]]]]]; discriminate.
Qed.

(** ** get and remove *)

Lemma filter_nil_iff {A : Type} (f : A -> bool) (l : list A) :
  List.filter f l = [] <-> ~ exists x, In x l /\ f x = true.
Proof.
  split.
  - intros Hnil (x & Hx & Hf).
    assert (Hin : In x (List.filter f l)) by (apply filter_In; auto).
    rewrite Hnil in Hin. destruct Hin.
  - intros Hno. destruct (List.filter f l) as [|x l'] eqn:Hf; [reflexivity|].
    exfalso. apply Hno. exists x. apply filter_In. rewrite Hf. left; reflexivity.
Qed.

Lemma first_row_map_truthy {R : Type} (view : R -> obj) (rs : list R) :
  truthy (first_row (map view rs)) = negb (bool_decide (rs = [])).
Proof. destruct rs; reflexivity. Qed.

Lemma filter_cons_iff {A : Type} (f : A -> bool) (l : list A) :
  List.filter f l <> [] <-> exists x, In x l /\ f x = true.
Proof.
  split.
  - destruct (List.filter f l) as [|x l'] eqn:Hf; [congruence|]. intros _.
    exists x. apply filter_In. rewrite Hf. left; reflexivity.
  - intros Hex Hnil. apply filter_nil_iff in Hnil. contradiction.
Qed.

Lemma has_job_filter k d :
  Claimed.has_job k d <->
  List.filter (fun r => eq_param (j_id r) (Some k)) (jobs d) <> [].
Proof.
  rewrite filter_cons_iff. unfold Claimed.has_job, eq_param.
  split; intros (r & Hr & Hk); exists r; split; try assumption;
    [apply bool_decide_eq_true_2 | eapply bool_decide_eq_true_1]; eassumption.
Qed.

Lemma has_company_filter h d :
  Claimed.has_company h d <->
  List.filter (fun r => eq_param (c_handle r) (Some h)) (companies d) <> [].
Proof.
  rewrite filter_cons_iff. unfold Claimed.has_company, eq_param.
  split; intros (r & Hr & Hk); exists r; split; try assumption;
    [apply bool_decide_eq_true_2 | eapply bool_decide_eq_true_1]; eassumption.
Qed.

Lemma filter_negb_none {A : Type} (f : A -> bool) (l : list A) :
  List.filter f (List.filter (fun x => negb (f x)) l) = [].
Proof.
  apply filter_nil_iff. intros (x & Hx & Hf).
  apply filter_In in Hx as [_ Hn]. rewrite Hf in Hn. discriminate.
Qed.

Lemma job_get_run id k w :
  pg_int id = Some (Some k) ->
  Job.get id w =
    match List.filter (fun r => eq_param (j_id r) (Some k)) (jobs (store w)) with
    | r :: _ => (Ok (JObj (job_obj r)), World (store w) (sent w ++ [SELECT Jobs]))
    | [] => (Err NotFoundError, World (store w) (sent w ++ [SELECT Jobs]))
    end.
Proof.
  intros Hk. unfold Job.get, select_job_by_id, select_jobs, unordered. run_M.
  simpl. rewrite Hk. simpl.
  destruct (List.filter _ (jobs (store w))); reflexivity.
Qed.

Lemma job_remove_run id k w :
  pg_int id = Some (Some k) ->
  Job.remove id w =
    let hit r := eq_param (j_id r) (Some k) in
    let w' := World (Db (List.filter (fun r => negb (hit r)) (jobs (store w)))
                        (companies (store w)) (jobs_id_seq (store w)))
                    (sent w ++ [DELETE Jobs]) in
    match List.filter hit (jobs (store w)) with
    | _ :: _ => (Ok tt, w')
    | [] => (Err NotFoundError, w')
    end.
Proof.
  intros Hk. unfold Job.remove, delete_jobs. run_M.
  simpl. rewrite Hk. simpl.
  destruct (List.filter _ (jobs (store w))); reflexivity.
Qed.

Lemma company_get_run handle h w :
  pg_text handle = Some (Some h) ->
  Company.get handle w =
    match List.filter (fun r => eq_param (c_handle r) (Some h))
                      (companies (store w)) with
    | r :: _ =>
        (Ok (JObj (company_obj r ++ [("jobs", Claimed.jobs_of h (store w))])),
         World (store w) (sent w ++ [SELECT Companies] ++ [SELECT Jobs]))
    | [] => (Err NotFoundError, World (store w) (sent w ++ [SELECT Companies]))
    end.
Proof.
  intros Hh.
  unfold Company.get, select_company_by_handle, select_jobs_of_company,
    select_companies, select_jobs, unordered.
  run_M. simpl. rewrite Hh. simpl.
  destruct (List.filter _ (companies (store w))) as [|r l]; [reflexivity|].
  simpl. rewrite <- app_assoc. reflexivity.
Qed.





(** ** Lists, continued *)

Lemma filter_all {A : Type} (l : list A) : List.filter (fun _ => true) l = l.
Proof. induction l as [|x l IH]; simpl; congruence. Qed.

Lemma filter_map_swap {A B : Type} (f : A -> B) (p : B -> bool) (l : list A) :
  List.filter p (map f l) = map f (List.filter (fun x => p (f x)) l).
Proof.
  induction l as [|x l IH]; simpl; [reflexivity|].
  destruct (p (f x)); simpl; congruence.
Qed.

Lemma existsb_map {A B : Type} (f : A -> B) (p : B -> bool) (l : list A) :
  existsb p (map f l) = existsb (fun x => p (f x)) l.
Proof. induction l as [|x l IH]; simpl; congruence. Qed.

Lemma filter_ext_in_bool {A : Type} (f g : A -> bool) (l : list A) :
  (forall x, In x l -> f x = g x) -> List.filter f l = List.filter g l.
Proof.
  induction l as [|x l IH]; simpl; intros H; [reflexivity|].
  rewrite (H x) by (left; reflexivity).
  rewrite IH by (intros y Hy; apply H; right; assumption). reflexivity.
Qed.

Section OrderByFacts.
Context {A : Type} (leb : A -> A -> bool).

Lemma insert_by_perm x l : Permutation (insert_by leb x l) (x :: l).
Proof.
  induction l as [|y l IH]; simpl; [reflexivity|].
  destruct (leb x y); [reflexivity|].
  rewrite IH. apply perm_swap.
Qed.

Lemma order_by_perm l : Permutation (order_by leb l) l.
Proof.
  induction l as [|x l IH]; simpl; [reflexivity|].
  rewrite insert_by_perm. apply perm_skip. exact IH.
Qed.

Lemma order_by_In x l : In x (order_by leb l) <-> In x l.
Proof.
  split; apply Permutation_in; [|symmetry]; apply order_by_perm.
Qed.

Lemma existsb_order_by p l : existsb p (order_by leb l) = existsb p l.
Proof.
  apply eq_true_iff_eq. rewrite !existsb_exists.
  split; intros (x & Hx & Hp); exists x; split; try assumption;
    apply order_by_In; assumption.
Qed.

End OrderByFacts.

(** ** LIKE and substrings *)

Lemma like_percent p t :
  like (String percent p) t
  = like p t || match t with
                | EmptyString => false
                | String _ t' => like (String percent p) t'
                end.
Proof. destruct t; reflexivity. Qed.

Lemma like_literal c p t :
  Ascii.eqb c percent = false -> Ascii.eqb c underscore = false ->
  Ascii.eqb c backslash = false ->
  like (String c p) t
  = match t with
    | EmptyString => false
    | String d t' => Ascii.eqb c d && like p t'
    end.
Proof. intros H1 H2 H3. simpl. rewrite H1, H2, H3. reflexivity. Qed.

Lemma like_any t : like (String percent EmptyString) t = true.
Proof.
  induction t as [|c t IH]; [reflexivity|].
  rewrite like_percent, IH. apply orb_true_r.
Qed.

Lemma like_starts s t :
  Claimed.plain s = true ->
  like (s +:+ String percent EmptyString) t = Claimed.startsb s t.
Proof.
  revert t. induction s as [|c s IH]; intros t Hs.
  - apply like_any.
  - simpl in Hs. apply andb_prop in Hs as [Hs Hp].
    apply andb_prop in Hs as [Hs H3]. apply andb_prop in Hs as [H1 H2].
    apply negb_true_iff in H1, H2, H3.
    change (String c s +:+ String percent "")
      with (String c (s +:+ String percent "")).
    rewrite like_literal by assumption.
    destruct t as [|d t]; [reflexivity|]. simpl. rewrite IH by assumption.
    reflexivity.
Qed.

Lemma like_contains s t :
  Claimed.plain s = true ->
  like (String percent (s +:+ String percent EmptyString)) t
  = Claimed.containsb s t.
Proof.
  intros Hs. induction t as [|c t IH].
  - rewrite like_percent, like_starts by assumption. reflexivity.
  - rewrite like_percent, like_starts, IH by assumption. reflexivity.
Qed.

Lemma lower_ascii_special c :
  Ascii.eqb (lower_ascii c) percent = Ascii.eqb c percent
  /\ Ascii.eqb (lower_ascii c) underscore = Ascii.eqb c underscore
  /\ Ascii.eqb (lower_ascii c) backslash = Ascii.eqb c backslash.
Proof.
  destruct c as [[] [] [] [] [] [] [] []]; vm_compute; repeat split.
Qed.

Lemma plain_toLowerCase s : Claimed.plain (toLowerCase s) = Claimed.plain s.
Proof.
  induction s as [|c s IH]; [reflexivity|]. simpl.
  destruct (lower_ascii_special c) as (-> & -> & ->). rewrite IH. reflexivity.
Qed.

(** The pattern the models build matches exactly the rows that contain
    the search string, case-insensitively, when the search string is
    plain. *)
Lemma like_pattern_icontains s t :
  Claimed.plain s = true ->
  like ("%" +:+ toLowerCase s +:+ "%") (toLowerCase t) = Claimed.icontainsb s t.
Proof.
  intros Hs. unfold Claimed.icontainsb.
  rewrite <- like_contains by (rewrite plain_toLowerCase; assumption).
  reflexivity.
Qed.

(** [containsb] is the substring relation. *)
Lemma startsb_spec n h :
  Claimed.startsb n h = true <-> exists post, h = n +:+ post.
Proof.
  revert h. induction n as [|a n IH]; intros h; simpl.
  - split; [intros _; exists h; reflexivity | reflexivity].
  - destruct h as [|b h].
    + split; [discriminate | intros [post H]; discriminate].
    + rewrite andb_true_iff, IH. split.
      * intros [Hab [post ->]]. apply Ascii.eqb_eq in Hab as ->.
        exists post. reflexivity.
      * intros [post [= -> ->]]. split; [apply Ascii.eqb_refl | eauto].
Qed.

Lemma containsb_spec n h :
  Claimed.containsb n h = true <-> exists pre post, h = pre +:+ n +:+ post.
Proof.
  induction h as [|b h IH]; simpl.
  - rewrite orb_false_r, startsb_spec. split.
    + intros [post H]. exists "", post. exact H.
    + intros (pre & post & H). destruct pre; [eauto | discriminate].
  - rewrite orb_true_iff, startsb_spec, IH. split.
    + intros [[post H]|(pre & post & ->)].
      * exists "", post. exact H.
      * exists (String b pre), post. reflexivity.
    + intros (pre & post & H). destruct pre as [|c pre].
      * left. exists post. exact H.
      * right. injection H as -> ->. eauto.
Qed.

(** ** The comparison sets of Job.multi_filter *)

Lemma job_findAll_run w :
  Job.findAll w
  = (Ok (map job_obj (order_by by_title (jobs (store w)))), asked w [SELECT Jobs]).
Proof.
  unfold Job.findAll, select_jobs. run_M. simpl. rewrite filter_all.
  reflexivity.
Qed.








(** ** The comparison sets of Company.multi_filter *)

Lemma company_findAll_run w :
  Company.findAll w
  = (Ok (map company_obj (order_by by_name (companies (store w)))),
     asked w [SELECT Companies]).
Proof.
  unfold Company.findAll, select_companies. run_M. simpl. rewrite filter_all.
  reflexivity.
Qed.









(** Calls outside the amended claim throw: a truthy equity flag that is
    no boolean meets the guard of hasEquity_filter, a title that is no
    string has no toLowerCase, a threshold that is no integer is refused by
    the database. *)
Example multi_filter_throws :
  fst (Job.multi_filter JUndefined JUndefined (JStr "yes") (fresh jobly_store))
  = Err BadRequestError
  /\ fst (Job.multi_filter (JNum 5) JUndefined JUndefined (fresh jobly_store))
     = Err TypeError
  /\ fst (Job.multi_filter JUndefined (JStr "a lot") JUndefined (fresh jobly_store))
     = Err DatabaseError.
Proof. repeat split. Qed.

(** ** GET /jobs and the equity flag *)

Lemma strict_eq_JStr v s : strict_eq v (JStr s) = true <-> v = JStr s.
Proof.
  destruct v; simpl; try (split; [discriminate|intros [=]]).
  rewrite String.eqb_eq. split; [intros ->; reflexivity | intros [= ->]; reflexivity].
Qed.

(** A select leaves the store alone and returns rows of the table. *)
Lemma select_jobs_sound cond order d rows d' :
  (forall l x, In x (order l) -> In x l) ->
  select_jobs cond order d = Ok (rows, d') ->
  d' = d /\ exists rs, rows = map job_obj rs /\ incl rs (jobs d).
Proof.
  intros Hord H. apply select_jobs_rows in H as [-> ->].
  split; [reflexivity|]. eexists; split; [reflexivity|].
  intros x Hx. apply Hord in Hx. apply filter_In in Hx as [Hx _]. exact Hx.
Qed.

Lemma order_by_incl {A : Type} (leb : A -> A -> bool) l x :
  In x (order_by leb l) -> In x l.
Proof. apply order_by_In. Qed.

Lemma job_selects_sound params d rows d' :
  select_jobs_min_salary params d = Ok (rows, d')
  \/ select_jobs_title_like params d = Ok (rows, d') ->
  d' = d /\ exists rs, rows = map job_obj rs /\ incl rs (jobs d).
Proof.
  unfold select_jobs_min_salary, select_jobs_title_like.
  intros [H|H]; repeat (case_match; try discriminate);
    (eapply select_jobs_sound; [|exact H]); intros l x; apply order_by_incl.
Qed.

Lemma job_findAll_sound w rows w' :
  Job.findAll w = (Ok rows, w') ->
  store w' = store w /\ exists rs, rows = map job_obj rs /\ incl rs (jobs (store w)).
Proof.
  rewrite job_findAll_run. intros [= <- <-]. split; [reflexivity|].
  eexists; split; [reflexivity|]. intros x. apply order_by_incl.
Qed.

Lemma job_title_set_sound str w rows w' :
  Job.title_set str w = (Ok rows, w') ->
  store w' = store w /\ exists rs, rows = map job_obj rs /\ incl rs (jobs (store w)).
Proof.
  unfold Job.title_set. destruct (truthy str); [|apply job_findAll_sound].
  unfold Job.title_filter. destruct str; run_M; try discriminate.
  intros H.
  destruct (select_jobs_title_like _ (store w)) as [[a d']|e] eqn:Hrun;
    [|discriminate].
  injection H as <- <-.
  destruct (job_selects_sound _ _ _ _ (or_intror Hrun)) as [-> Hrs].
  split; [reflexivity | exact Hrs].
Qed.

Lemma job_salary_set_sound minSalary w rows w' :
  Job.salary_set minSalary w = (Ok rows, w') -> store w' = store w.
Proof.
  unfold Job.salary_set. destruct (truthy minSalary);
    [|intros H; apply job_findAll_sound in H as [H _]; exact H].
  unfold Job.minSalary_filter. run_M. intros H.
  destruct (select_jobs_min_salary _ (store w)) as [[a d']|e] eqn:Hrun;
    [|discriminate].
  injection H as <- <-.
  destruct (job_selects_sound _ _ _ _ (or_introl Hrun)) as [-> _]. reflexivity.
Qed.

Lemma hasEquity_filter_true_run w :
  Job.hasEquity_filter (JBool true) w
  = (Ok (map job_obj (order_by by_title
                        (Claimed.job_equity_set true (jobs (store w))))),
     asked w [SELECT Jobs]).
Proof.
  unfold Job.hasEquity_filter, select_jobs. run_M. simpl.
  do 4 f_equal. apply filter_ext_in_bool. intros r _.
  destruct (j_equity r); reflexivity.
Qed.

(** C9: the GET /jobs handler turns the equity filter on for the query
    value that is exactly the string [true]: it then compares with the
    jobs that have equity, and every job it answers with shares its title
    with one of them.  For any other value, or none, the equity
    comparison set is all rows and the answer is the one that the title
    and salary criteria alone give. *)
Theorem hasEquity_only_true (q : obj) :
  (obj_get q "hasEquity" = JStr "true" ->
     (forall w, get_jobs q w = Claimed.get_jobs_equity q w)
     /\ (forall w,
           fst (Job.hasEquity_filter (JBool true) w)
           = Ok (map job_obj (order_by by_title
                   (Claimed.job_equity_set true (jobs (store w))))))
     /\ (forall w body w', get_jobs q w = (Ok body, w') ->
           exists l,
             body = JObj [("jobs", JArr (map JObj (map job_obj l)))]
             /\ List.Forall
                  (fun r => In r (jobs (store w))
                            /\ exists m, In m (jobs (store w))
                                 /\ j_title m = j_title r
                                 /\ is_Some (j_equity m)) l))
  /\ (obj_get q "hasEquity" <> JStr "true" ->
        (forall w, fst (Job.findAll w)
                   = Ok (map job_obj (order_by by_title (jobs (store w)))))
        /\ forall w, get_jobs q w = Claimed.get_jobs_unrestricted q w).
Proof.
  split.
  - intros Hq.
    assert (Heq : forall w, get_jobs q w = Claimed.get_jobs_equity q w).
    { intros w. unfold get_jobs, Claimed.get_jobs_equity.
      rewrite job_multi_filter_sets, Hq.
      change (Job.equity_set (JBool (strict_eq (JStr "true") (JStr "true"))))
        with (Job.hasEquity_filter (JBool true)).
      unfold mbind, M_bind.
      destruct (Job.title_set _ w) as [[A|e] w1]; [|reflexivity].
      destruct (Job.salary_set _ w1) as [[B|e] w2]; [|reflexivity].
      destruct (Job.hasEquity_filter (JBool true) w2) as [[C|e] w3];
        reflexivity. }
    split; [exact Heq|].
    split; [intros w; rewrite hasEquity_filter_true_run; reflexivity|].
    intros w body w'. rewrite Heq. unfold Claimed.get_jobs_equity.
    unfold mbind at 1, M_bind at 1.
    destruct (Job.title_set _ w) as [[A|e] w1] eqn:HA; [|discriminate].
    unfold mbind at 1, M_bind at 1.
    destruct (Job.salary_set _ w1) as [[B|e] w2] eqn:HB; [|discriminate].
    unfold mbind at 1, M_bind at 1. rewrite hasEquity_filter_true_run.
    apply job_title_set_sound in HA as (HsA & rs & -> & Hrs).
    apply job_salary_set_sound in HB. rewrite HB, HsA.
    unfold mret, M_ret. intros [= <- _].
    rewrite filter_map_swap. eexists. split; [reflexivity|].
    apply List.Forall_forall. intros r Hr.
    apply filter_In in Hr as [Hr Hboth].
    split; [apply Hrs; exact Hr|].
    apply andb_prop in Hboth as [_ He].
    rewrite existsb_map, existsb_order_by in He.
    apply existsb_exists in He as (m & Hm & Ht).
    unfold Claimed.job_equity_set in Hm. apply filter_In in Hm as [Hm Hsome].
    exists m. split; [exact Hm|]. split.
    + cbn in Ht. apply String.eqb_eq in Ht. exact Ht.
    + destruct (j_equity m); [eexists; reflexivity|discriminate].
  - intros Hne.
    assert (Hflag : strict_eq (obj_get q "hasEquity") (JStr "true") = false).
    { destruct (strict_eq _ _) eqn:E; [|reflexivity].
      apply strict_eq_JStr in E. contradiction. }
    split; [intros w; rewrite job_findAll_run; reflexivity|].
    intros w. unfold get_jobs, Claimed.get_jobs_unrestricted.
    rewrite job_multi_filter_sets.
    rewrite Hflag. change (Job.equity_set (JBool false)) with Job.findAll.
    unfold mbind at 1 2 5 6, M_bind at 1 2 5 6.
    destruct (Job.title_set _ w) as [[A|e] w1] eqn:HA; [|reflexivity].
    unfold mbind at 1 3, M_bind at 1 3.
    destruct (Job.salary_set _ w1) as [[B|e] w2] eqn:HB; [|reflexivity].
    run_M. rewrite job_findAll_run. do 7 f_equal.
    apply filter_ext_in_bool. intros job Hjob.
    apply job_title_set_sound in HA as (HsA & rs & -> & Hrs).
    apply job_salary_set_sound in HB.
    apply in_map_iff in Hjob as (r & <- & Hr).
    rewrite existsb_map, existsb_order_by.
    match goal with |- ?x && ?y = ?x => assert (Hy : y = true) end.
    { apply existsb_exists. exists r. split.
      - rewrite HB, HsA. apply Hrs. exact Hr.
      - simpl. apply String.eqb_refl. }
    rewrite Hy. apply andb_true_r.
Qed.

(** ** Titles that collide *)

(** C1 (the code at the failing input): GET /jobs with minSalary=3000 and
    hasEquity=true over two jobs titled [dev], one paid 5000 without
    equity and one paid 1000 with equity, answers both jobs, while no job
    satisfies both criteria. *)
Lemma get_jobs_title_collision :
  fst (respond (get_jobs [("minSalary", JStr "3000"); ("hasEquity", JStr "true")])
               (fresh dev_store))
  = Json (JObj [("jobs", JArr (map JObj (map job_obj (jobs dev_store))))])
  /\ Claimed.job_intersection JUndefined (Some 3000) true (jobs dev_store) = [].
Proof. split; reflexivity. Qed.

(** C3 (the code at the failing input): over the same two jobs, GET /jobs
    with only minSalary=3000 answers both, the one paid 1000 included, and
    with only hasEquity=true answers both, the one without equity
    included. *)
Lemma get_jobs_single_criterion_collision :
  fst (respond (get_jobs [("minSalary", JStr "3000")]) (fresh dev_store))
  = Json (JObj [("jobs", JArr (map JObj (map job_obj (jobs dev_store))))])
  /\ Claimed.job_intersection JUndefined (Some 3000) false (jobs dev_store)
     = [JobRow 1 "dev" (Some 5000) None "c1"]
  /\ fst (respond (get_jobs [("hasEquity", JStr "true")]) (fresh dev_store))
     = Json (JObj [("jobs", JArr (map JObj (map job_obj (jobs dev_store))))])
  /\ Claimed.job_intersection JUndefined None true (jobs dev_store)
     = [JobRow 2 "dev" (Some 1000) (Some "0.1") "c2"].
Proof. repeat split. Qed.

(** ** GET /companies *)

(** C4: a GET /companies request whose minEmployees and maxEmployees are
    both supplied with the minimum above the maximum is answered 400, and
    the world is as before: no statement went to the database. *)
Theorem get_companies_min_above_max (q : obj) (w : world) (a b : Z) :
  number_of (obj_get q "minEmployees") = Some a ->
  number_of (obj_get q "maxEmployees") = Some b ->
  b < a ->
  respond (get_companies q) w = (Failed 400, w).
Proof.
  intros Ha Hb Hlt. unfold respond, get_companies. rewrite Ha, Hb.
  apply Z.ltb_lt in Hlt. rewrite Hlt. reflexivity.
Qed.

(** C4 at work: minEmployees=3 with maxEmployees=2. *)
Lemma get_companies_min_above_max_witness :
  respond (get_companies [("minEmployees", JStr "3"); ("maxEmployees", JStr "2")])
          (fresh jobly_store)
  = (Failed 400, fresh jobly_store).
Proof.
  apply (get_companies_min_above_max _ _ 3 2); [reflexivity|reflexivity|lia].
Defined.

(** ** Reading back what sqlForPartialUpdate wrote *)

Lemma append_assoc (a b c : string) : (a +:+ b) +:+ c = a +:+ (b +:+ c).
Proof. induction a as [|x a IH]; simpl; congruence. Qed.

Lemma append_nil_r (a : string) : a +:+ "" = a.
Proof. induction a as [|x a IH]; simpl; congruence. Qed.

Lemma acc_uint_push (d : Decimal.uint) (n : option nat) (c : ascii) (k : nat) :
  digit_value c = k ->
  acc_uint d (push_digit n c)
  = Some (Nat.of_uint_acc d (k + Nat.tail_mul 10 (default 0%nat n))).
Proof.
  intros <-. unfold push_digit. rewrite Nat.tail_mul_spec.
  replace (digit_value c + 10 * default 0%nat n)%nat
    with (10 * default 0 n + digit_value c)%nat by lia.
  destruct d; reflexivity.
Qed.

Ltac digit_case IH :=
  simpl; rewrite IH; erewrite acc_uint_push by reflexivity; reflexivity.

Lemma read_set_index (d : Decimal.uint) :
  forall col n rest acc,
    read_set (InIndex col n) (NilEmpty.string_of_uint d +:+ rest) acc
    = read_set (InIndex col (acc_uint d n)) rest acc.
Proof.
  induction d as [|d IH|d IH|d IH|d IH|d IH|d IH|d IH|d IH|d IH|d IH];
    intros col n rest acc; [reflexivity|..]; digit_case IH.
Qed.

Lemma read_digits_uint (d : Decimal.uint) :
  forall n, read_digits (NilEmpty.string_of_uint d) n = acc_uint d n.
Proof.
  induction d as [|d IH|d IH|d IH|d IH|d IH|d IH|d IH|d IH|d IH|d IH];
    intros n; [reflexivity|..]; digit_case IH.
Qed.

Lemma to_uint_not_nil (n : nat) : Nat.to_uint n <> Decimal.Nil.
Proof.
  rewrite <- (Unsigned.of_to n) at 1. rewrite Unsigned.to_of.
  apply unorm_nonnil.
Qed.

Lemma acc_uint_dec (n : nat) : acc_uint (Nat.to_uint n) None = Some n.
Proof.
  pose proof (to_uint_not_nil n) as Hn. unfold acc_uint.
  destruct (Nat.to_uint n) eqn:E; try contradiction;
    rewrite <- E; simpl; f_equal; apply Unsigned.of_to.
Qed.

Lemma read_var_dec (n : nat) : read_var ("$" +:+ dec n) = Some n.
Proof.
  unfold dec. simpl. rewrite read_digits_uint. apply acc_uint_dec.
Qed.

Lemma read_set_name (c : string) :
  forall pre rest acc,
    quote_free c = true -> pre +:+ c <> "" ->
    read_set (InName pre) (c +:+ dquote +:+ rest) acc
    = read_set (AtEquals (pre +:+ c)) rest acc.
Proof.
  induction c as [|a c IH]; intros pre rest acc Hq Hne.
  - rewrite append_nil_r in *. simpl.
    destruct (String.eqb_spec pre ""); [contradiction|reflexivity].
  - simpl in Hq. apply andb_prop in Hq as [Ha Hq].
    apply negb_true_iff in Ha.
    change (String a c +:+ dquote +:+ rest)
      with (String a (c +:+ dquote +:+ rest)).
    cbn [read_set]. rewrite Ha.
    rewrite IH; [|assumption|].
    + rewrite append_assoc. reflexivity.
    + rewrite append_assoc. simpl. destruct pre; discriminate.
Qed.

(** One fragment, then whatever follows it. *)
Lemma read_set_fragment col (k : nat) rest acc :
  quote_free col = true -> col <> "" ->
  read_set AtQuote
    ((dquote +:+ col +:+ dquote +:+ "=$" +:+ dec k) +:+ rest) acc
  = read_set (InIndex col (Some k)) rest acc.
Proof.
  intros Hq Hne. rewrite !append_assoc.
  change (dquote +:+ ?x) with (String (ascii_of_nat 34) x).
  cbn [read_set]. rewrite Ascii.eqb_refl.
  rewrite (read_set_name col "") by assumption.
  change ("" +:+ col) with col. cbn [append read_set].
  change (String "=" (String "$" ?x)) with (String "="%char (String "$"%char x)).
  simpl. unfold dec. rewrite read_set_index, acc_uint_dec. reflexivity.
Qed.

Lemma join_cons2 sep x y l : join sep (x :: y :: l) = x +:+ sep +:+ join sep (y :: l).
Proof. reflexivity. Qed.

(** The SET list that sqlForPartialUpdate renders reads back as its
    assignments: column by column, numbered from 1. *)
Lemma read_set_fragments (m : gmap string string) (keys : list string) :
  forall start acc,
    keys <> [] ->
    Forall (fun k => quote_free (Sql.column m k) = true /\ Sql.column m k <> "")
           keys ->
    read_set AtQuote
      (join ", " (imap (fun i k => Sql.fragment m (start + i) k) keys)) acc
    = Some (acc ++ imap (fun i k => (Sql.column m k, (start + i + 1)%nat)) keys).
Proof.
  induction keys as [|k keys IH]; intros start acc Hne Hok; [contradiction|].
  apply Forall_cons in Hok as [[Hq Hc] Hok].
  rewrite !imap_cons. destruct keys as [|k2 keys].
  - cbn [imap join]. rewrite <- (append_nil_r (Sql.fragment m (start + 0) k)).
    unfold Sql.fragment. rewrite read_set_fragment by assumption. reflexivity.
  - remember (k2 :: keys) as ks eqn:Hks.
    assert (Hrest : imap ((fun i k => Sql.fragment m (start + i) k) ∘ S) ks
                    = imap (fun i k => Sql.fragment m (S start + i) k) ks).
    { apply imap_ext. intros i x _. simpl. f_equal. lia. }
    assert (Hsets : imap ((fun i k => (Sql.column m k, (start + i + 1)%nat)) ∘ S) ks
                    = imap (fun i k => (Sql.column m k, (S start + i + 1)%nat)) ks).
    { apply imap_ext. intros i x _. simpl. f_equal. lia. }
    rewrite Hrest, Hsets.
    destruct (imap (fun i k => Sql.fragment m (S start + i) k) ks)
      as [|y l] eqn:Himap.
    { subst ks. rewrite imap_cons in Himap. discriminate. }
    rewrite join_cons2. unfold Sql.fragment at 1.
    rewrite read_set_fragment by assumption.
    change (", " +:+ ?x) with (String ","%char (String " "%char x)).
    cbn [read_set]. change (is_digit ","%char) with false. cbv iota.
    rewrite !Ascii.eqb_refl. rewrite <- Himap.
    rewrite IH; [|subst ks; discriminate|assumption].
    rewrite <- app_assoc. reflexivity.
Qed.

Lemma read_set_list_setCols (m : gmap string string) (keys : list string) :
  keys <> [] ->
  Forall (fun k => quote_free (Sql.column m k) = true /\ Sql.column m k <> "")
         keys ->
  read_set_list (join ", " (imap (Sql.fragment m) keys))
  = Some (imap (fun i k => (Sql.column m k, (i + 1)%nat)) keys).
Proof.
  intros Hne Hok. unfold read_set_list.
  apply (read_set_fragments m keys 0%nat [] Hne Hok).
Qed.

Lemma param_succ (params : list jsval) (i : nat) :
  param params (i + 1) = params !! i.
Proof. rewrite Nat.add_1_r. reflexivity. Qed.

Lemma bind_params_run (col : string -> string) (data : obj) :
  forall pre post : list jsval,
    bind_params
      (imap (fun i k => (col k, (length pre + i + 1)%nat)) (obj_keys data))
      (pre ++ obj_values data ++ post)
    = Some (map (fun kv => (col (fst kv), snd kv)) data).
Proof.
  unfold bind_params, obj_keys, obj_values.
  induction data as [|[k v] data IH]; intros pre post; [reflexivity|].
  cbn [map fst snd app]. rewrite imap_cons. cbn [mapM].
  rewrite param_succ, Nat.add_0_r.
  rewrite list_lookup_middle by reflexivity. cbn [mbind option_bind].
  assert (Hshift :
    imap ((fun i k => (col k, (length pre + i + 1)%nat)) ∘ S) (map fst data)
    = imap (fun i k => (col k, (length (pre ++ [v]) + i + 1)%nat)) (map fst data)).
  { apply imap_ext. intros i x _. simpl. rewrite length_app. simpl.
    f_equal. lia. }
  rewrite Hshift.
  replace (pre ++ v :: map snd data ++ post)
    with ((pre ++ [v]) ++ map snd data ++ post)
    by (rewrite <- app_assoc; reflexivity).
  rewrite IH. reflexivity.
Qed.

Section UpdateFacts.
Context {R S K : Type} `{EqDecision K}.
Context (read_col : string * jsval -> option S).
Context (write_col : R -> S -> option R).
Context (read_key : jsval -> option (option K)).
Context (key : R -> K).

(** The statement that update builds passes the analysis: its SET list
    reads back, every parameter is there, and the key is the parameter
    after the values. *)
Lemma analyse_update_run (m : gmap string string) (data : obj) (idv : jsval)
    typed target :
  data <> [] ->
  Forall (fun k => quote_free (Sql.column m k) = true /\ Sql.column m k <> "")
         (obj_keys data) ->
  NoDup (map (Sql.column m) (obj_keys data)) ->
  mapM read_col (map (fun kv => (Sql.column m (fst kv), snd kv)) data)
  = Some typed ->
  read_key idv = Some target ->
  analyse_update read_col read_key
    (join ", " (imap (Sql.fragment m) (obj_keys data)))
    ("$" +:+ dec (length (obj_values data) + 1))
    (obj_values data ++ [idv])
  = Some (typed, target).
Proof.
  intros Hne Hok Hnd Htyped Hkey. unfold analyse_update.
  rewrite read_set_list_setCols;
    [|unfold obj_keys; destruct data; [contradiction|discriminate]|assumption].
  cbn [mbind option_bind]. rewrite read_var_dec. cbn [mbind option_bind].
  pose proof (bind_params_run (Sql.column m) data [] [idv]) as Hb.
  cbn [length app Nat.add] in Hb. rewrite Hb. cbn [mbind option_bind].
  rewrite Htyped. cbn [mbind option_bind].
  rewrite param_succ.
  rewrite (list_lookup_middle (obj_values data) [] idv) by reflexivity.
  cbn [mbind option_bind]. rewrite Hkey. cbn [mbind option_bind].
  rewrite !map_fmap, fmap_imap.
  rewrite option_guard_True; [reflexivity|].
  erewrite imap_ext; [rewrite imap_const, <- map_fmap; exact Hnd|].
  reflexivity.
Qed.

End UpdateFacts.

(** ** One row, by its key *)

Lemma update_where_miss {R : Type} (hit : R -> bool) (f : R -> option R) l :
  (forall x, In x l -> hit x = false) -> update_where hit f l = Some (l, []).
Proof.
  induction l as [|x l IH]; intros Hmiss; [reflexivity|]. simpl.
  rewrite IH by (intros y Hy; apply Hmiss; right; exact Hy).
  rewrite (Hmiss x) by (left; reflexivity). reflexivity.
Qed.

Lemma update_where_one {R : Type} (hit : R -> bool) (f : R -> option R)
    before r after r' :
  (forall x, In x before -> hit x = false) ->
  (forall x, In x after -> hit x = false) ->
  hit r = true -> f r = Some r' ->
  update_where hit f (before ++ r :: after) = Some (before ++ r' :: after, [r']).
Proof.
  intros Hb Ha Hr Hf. induction before as [|x before IH]; simpl.
  - rewrite (update_where_miss hit f after Ha), Hr, Hf. reflexivity.
  - rewrite IH by (intros y Hy; apply Hb; right; exact Hy).
    rewrite (Hb x) by (left; reflexivity). reflexivity.
Qed.

(** A key that is unique selects its row only. *)
Lemma unique_key_split {R K : Type} (key : R -> K) (l : list R) (r : R) :
  NoDup (map key l) -> In r l ->
  exists before after,
    l = before ++ r :: after
    /\ forall x, In x before \/ In x after -> key x <> key r.
Proof.
  intros Hnd Hin. apply in_split in Hin as (before & after & ->).
  exists before, after. split; [reflexivity|].
  rewrite map_app in Hnd. cbn [map] in Hnd.
  apply NoDup_ListNoDup, List.NoDup_remove_2 in Hnd.
  intros x Hx Heq. apply Hnd. rewrite <- Heq. apply in_or_app.
  destruct Hx as [Hx|Hx]; [left|right]; apply in_map; exact Hx.
Qed.

Lemma NoDup_map_in {A B : Type} (f : A -> B) (l : list A) :
  (forall x y, In x l -> In y l -> f x = f y -> x = y) ->
  NoDup l -> NoDup (map f l).
Proof.
  intros Hinj Hnd. induction Hnd as [|x l Hx Hnd IH]; [constructor|].
  cbn [map]. constructor.
  - rewrite list_elem_of_In. intros Hfx. apply in_map_iff in Hfx as (y & Hy & Hin).
    apply Hinj in Hy; [|right; exact Hin|left; reflexivity]. subst y.
    apply Hx. apply list_elem_of_In. exact Hin.
  - apply IH. intros a b Ha Hb. apply Hinj; right; assumption.
Qed.

Section WriteFacts.
Context {R S : Type}.
Context (read_col : string * jsval -> option S).
Context (write_col : R -> S -> option R).
Context (view : R -> obj) (col : string -> string).
Context (ok : string * jsval -> bool).
Context (kept : R -> R -> Prop).

(** One valid field: it reads at its column's type, and writing it sets
    the field of that name to the value and no other; [kept] is what no
    write changes (the key). *)
Hypothesis kept_refl : forall r, kept r r.
Hypothesis kept_trans : forall r1 r2 r3, kept r1 r2 -> kept r2 r3 -> kept r1 r3.
Hypothesis single :
  forall k v, ok (k, v) = true ->
    exists a, read_col (col k, v) = Some a
      /\ forall r, exists r1, write_col r a = Some r1
           /\ kept r r1
           /\ obj_get (view r1) k = v
           /\ forall f, f <> k -> obj_get (view r1) f = obj_get (view r) f.

Lemma write_cols_cons a typed r :
  write_cols write_col (a :: typed) r
  = r1 ← write_col r a; write_cols write_col typed r1.
Proof.
  unfold write_cols. cbn [foldl mbind option_bind].
  destruct (write_col r a) as [r1|]; [reflexivity|].
  induction typed as [|b typed IH]; [reflexivity|]. exact IH.
Qed.

Lemma write_cols_run (data : obj) :
  forallb ok data = true -> NoDup (obj_keys data) ->
  exists typed,
    mapM read_col (map (fun kv => (col (fst kv), snd kv)) data) = Some typed
    /\ forall r, exists r',
         write_cols write_col typed r = Some r'
         /\ kept r r'
         /\ (forall f v, In (f, v) data -> obj_get (view r') f = v)
         /\ (forall f, ~ In f (obj_keys data) ->
               obj_get (view r') f = obj_get (view r) f).
Proof.
  induction data as [|[k v] data IH]; intros Hok Hnd.
  - exists []. split; [reflexivity|]. intros r. exists r.
    split; [reflexivity|]. split; [apply kept_refl|].
    split; [intros f v []|reflexivity].
  - cbn [forallb] in Hok. apply andb_prop in Hok as [Hkv Hok].
    cbn [obj_keys map fst] in Hnd. apply NoDup_cons in Hnd as [Hk Hnd].
    destruct (IH Hok Hnd) as (typed & Htyped & Hwrite).
    destruct (single k v Hkv) as (a & Ha & Hone).
    exists (a :: typed). split.
    + cbn [map mapM fst snd]. rewrite Ha. cbn [mbind option_bind].
      rewrite Htyped. reflexivity.
    + intros r. destruct (Hone r) as (r1 & Hr1 & Hkept1 & Hset & Hother).
      destruct (Hwrite r1) as (r' & Hr' & Hkept & Hsets & Hothers).
      exists r'. rewrite write_cols_cons, Hr1. cbn [mbind option_bind].
      split; [exact Hr'|]. split; [eapply kept_trans; eassumption|]. split.
      * intros f v' [[= <- <-]|Hin]; [|apply Hsets; exact Hin].
        rewrite Hothers; [exact Hset|].
        rewrite <- list_elem_of_In. exact Hk.
      * intros f Hf. cbn [obj_keys map fst] in Hf.
        rewrite Hothers by (intros Hin; apply Hf; right; exact Hin).
        apply Hother. intros ->. apply Hf. left; reflexivity.
Qed.

End WriteFacts.

(** ** Job.update *)

Ltac other_fields f :=
  cbn [obj_get job_obj company_obj j_id j_title j_salary j_equity
       j_company_handle c_handle c_name c_description c_num_employees
       c_logo_url];
  repeat match goal with
         | |- context [String.eqb ?a f] =>
             destruct (String.eqb_spec a f); try congruence
         end;
  try reflexivity.

(** Once the column is read and the value is of its type, the write
    sets that field and keeps the rest. *)
Ltac single_write :=
  eexists; split; [reflexivity|];
  intros r; eexists; split; [reflexivity|];
  split; [split; reflexivity|]; split; [reflexivity|];
  intros f Hf; other_fields f.

Lemma job_field_column k v :
  Claimed.job_field_ok (k, v) = true -> Sql.column job_columns k = k.
Proof.
  unfold Claimed.job_field_ok.
  destruct (String.eqb_spec k "title") as [->|_]; [reflexivity|].
  destruct (String.eqb_spec k "salary") as [->|_]; [reflexivity|].
  destruct (String.eqb_spec k "equity") as [->|_]; [reflexivity|discriminate].
Qed.

Lemma read_job_set_salary v : read_job_set ("salary", v) = SetSalary <$> pg_int v.
Proof. reflexivity. Qed.
Lemma read_job_set_equity v :
  read_job_set ("equity", v) = SetEquity <$> pg_numeric v.
Proof. reflexivity. Qed.

Lemma job_single k v :
  Claimed.job_field_ok (k, v) = true ->
  exists a, read_job_set (Sql.column job_columns k, v) = Some a
    /\ forall r, exists r1, write_job_set r a = Some r1
         /\ job_kept r r1
         /\ obj_get (job_obj r1) k = v
         /\ forall f, f <> k -> obj_get (job_obj r1) f = obj_get (job_obj r) f.
Proof.
  intros Hok. rewrite (job_field_column k v Hok).
  unfold Claimed.job_field_ok in Hok.
  destruct (String.eqb_spec k "title") as [->|_].
  { destruct v; try discriminate. single_write. }
  destruct (String.eqb_spec k "salary") as [->|_].
  { rewrite read_job_set_salary.
    destruct v; try discriminate; cbn [pg_int]; try rewrite Hok; single_write. }
  destruct (String.eqb_spec k "equity") as [->|_]; [|discriminate].
  rewrite read_job_set_equity.
  destruct v; try discriminate; cbn [pg_numeric]; try rewrite Hok; single_write.
Qed.

Lemma update_body_parts field_ok data :
  Claimed.update_body field_ok data = true ->
  data <> [] /\ forallb field_ok data = true /\ NoDup (obj_keys data).
Proof.
  unfold Claimed.update_body. intros H.
  apply andb_prop in H as [H Hnd]. apply andb_prop in H as [Hne Hok].
  apply bool_decide_eq_true_1 in Hnd.
  split; [|split; assumption]. intros ->. discriminate.
Qed.

Lemma forallb_keys (field_ok : string * jsval -> bool) (P : string -> Prop)
    (data : obj) :
  forallb field_ok data = true ->
  (forall k v, field_ok (k, v) = true -> P k) ->
  Forall P (obj_keys data).
Proof.
  intros Hok HP. apply List.Forall_forall. intros k Hk.
  apply in_map_iff in Hk as ([k' v] & <- & Hin).
  rewrite forallb_forall in Hok. eapply HP. apply Hok. exact Hin.
Qed.

Lemma forallb_keys_in (field_ok : string * jsval -> bool) (data : obj) k :
  forallb field_ok data = true -> In k (obj_keys data) ->
  exists v, field_ok (k, v) = true.
Proof.
  intros Hok Hk. apply in_map_iff in Hk as ([k' v] & <- & Hin).
  rewrite forallb_forall in Hok. exists v. apply Hok. exact Hin.
Qed.

Lemma consistent_job_rewrite d before r r' after :
  jobs d = before ++ r :: after ->
  j_id r' = j_id r -> j_company_handle r' = j_company_handle r ->
  consistent d = true ->
  consistent (Db (before ++ r' :: after) (companies d) (jobs_id_seq d)) = true.
Proof.
  unfold consistent. intros Hsplit Hid Hch. cbn [jobs companies].
  rewrite Hsplit, !map_app, !forallb_app. cbn [map forallb].
  rewrite Hid, Hch. trivial.
Qed.

Lemma job_update_run w id k data r :
  consistent (store w) = true ->
  pg_int id = Some (Some k) ->
  In r (jobs (store w)) -> j_id r = k ->
  Claimed.update_body Claimed.job_field_ok data = true ->
  exists r' before after,
    jobs (store w) = before ++ r :: after
    /\ Job.update id data w
       = (Ok (JObj (job_obj r')),
          World (Db (before ++ r' :: after) (companies (store w))
                    (jobs_id_seq (store w)))
                (sent w ++ [UPDATE Jobs]))
    /\ j_id r' = j_id r
    /\ Claimed.fields_set job_obj data r'
    /\ Claimed.fields_kept job_obj data r r'.
Proof.
  intros Hcons Hid Hin Hk Hbody.
  apply update_body_parts in Hbody as (Hne & Hok & Hnd).
  destruct (write_cols_run read_job_set write_job_set job_obj
              (Sql.column job_columns) Claimed.job_field_ok job_kept)
    with (data := data) as (typed & Htyped & Hwrite); try assumption.
  { intros x. split; reflexivity. }
  { intros r1 r2 r3 [H1 H2] [H3 H4]. split; congruence. }
  { apply job_single. }
  destruct (Hwrite r) as (r' & Hr' & [Hid' Hch'] & Hset & Hkept).
  assert (Hnodup : NoDup (map j_id (jobs (store w)))).
  { unfold consistent in Hcons. apply andb_prop in Hcons as [Hcons _].
    apply andb_prop in Hcons as [Hcons _].
    apply bool_decide_eq_true_1 in Hcons. exact Hcons. }
  destruct (unique_key_split j_id _ r Hnodup Hin)
    as (before & after & Hsplit & Hothers).
  exists r', before, after. split; [exact Hsplit|].
  split; [|split; [exact Hid'|split; assumption]].
  unfold Job.update, Sql.sqlForPartialUpdate.
  unfold obj_keys at 1. rewrite length_map.
  destruct data as [|kv data]; [contradiction|]. cbn [length Nat.eqb].
  cbn [Sql.setCols Sql.values]. run_M. unfold update_jobs.
  erewrite analyse_update_run; try eassumption.
  - unfold rewrite_rows. rewrite Hsplit.
    erewrite update_where_one; [| | |unfold eq_param|exact Hr'].
    + cbn [bool_decide decide_rel orb map first_row truthy negb].
      rewrite bool_decide_eq_false_2 by discriminate. cbn [orb].
      rewrite (consistent_job_rewrite (store w) before r r' after)
        by assumption.
      reflexivity.
    + intros x Hx. unfold eq_param. apply bool_decide_eq_false_2.
      rewrite <- Hk. apply Hothers. left; exact Hx.
    + intros x Hx. unfold eq_param. apply bool_decide_eq_false_2.
      rewrite <- Hk. apply Hothers. right; exact Hx.
    + apply bool_decide_eq_true_2. exact Hk.
  - eapply forallb_keys; [exact Hok|]. intros k0 v0 Hkv.
    rewrite (job_field_column k0 v0 Hkv).
    unfold Claimed.job_field_ok in Hkv.
    destruct (String.eqb_spec k0 "title") as [->|_]; [split; [reflexivity|discriminate]|].
    destruct (String.eqb_spec k0 "salary") as [->|_]; [split; [reflexivity|discriminate]|].
    destruct (String.eqb_spec k0 "equity") as [->|_]; [split; [reflexivity|discriminate]|].
    discriminate.
  - apply NoDup_map_in; [|exact Hnd].
    intros x y Hx Hy Hxy.
    destruct (forallb_keys_in _ _ x Hok Hx) as [vx Hvx].
    destruct (forallb_keys_in _ _ y Hok Hy) as [vy Hvy].
    rewrite (job_field_column x vx Hvx), (job_field_column y vy Hvy) in Hxy.
    exact Hxy.
Qed.

(** ** Company.update *)











(** The body [{companyHandle}] is rejected too: the SET list names the
    quoted column [company_Handle], and the stored column is
    [company_handle]. *)
Example update_companyHandle_rejected :
  Sql.sqlForPartialUpdate [("companyHandle", JStr "c2")] job_columns
  = Ok {| Sql.setCols := dquote +:+ "company_Handle" +:+ dquote +:+ "=$1";
          Sql.values := [JStr "c2"] |}
  /\ fst (Job.update (JNum 1) [("companyHandle", JStr "c2")] (fresh jobly_store))
     = Err DatabaseError.
Proof. split; reflexivity. Qed.

(** ** Distinct titles *)

Section OrderBySorted.
Context {A : Type} (leb : A -> A -> bool).
Hypothesis leb_trans : forall a b c, leb a b = true -> leb b c = true -> leb a c = true.
Hypothesis leb_total : forall a b, leb a b = true \/ leb b a = true.

Lemma insert_by_sorted x l :
  StronglySorted (fun a b => leb a b = true) l ->
  StronglySorted (fun a b => leb a b = true) (insert_by leb x l).
Proof.
  induction 1 as [|y l Hl IH Hy]; simpl; [repeat constructor|].
  destruct (leb x y) eqn:Hxy.
  - constructor; [constructor; assumption|].
    constructor; [exact Hxy|].
    rewrite List.Forall_forall in *. intros z Hz. eauto.
  - constructor; [exact IH|].
    rewrite List.Forall_forall in *. intros z Hz.
    apply (Permutation_in _ (insert_by_perm leb x l)) in Hz as [<-|Hz]; [|auto].
    destruct (leb_total x y) as [H|H]; [congruence|exact H].
Qed.

Lemma order_by_sorted l :
  StronglySorted (fun a b => leb a b = true) (order_by leb l).
Proof.
  induction l as [|x l IH]; simpl; [constructor|].
  apply insert_by_sorted. exact IH.
Qed.



End OrderBySorted.

Lemma by_title_trans a b c :
  by_title a b = true -> by_title b c = true -> by_title a c = true.
Proof.
  unfold by_title. intros H1 H2.
  apply Is_true_true. apply Is_true_true in H1, H2.
  exact (transitivity (R := String.le) H1 H2).
Qed.

Lemma by_title_total a b : by_title a b = true \/ by_title b a = true.
Proof. apply String.leb_total. Qed.

Lemma filter_filter {A : Type} (p q : A -> bool) (l : list A) :
  List.filter p (List.filter q l) = List.filter (fun x => q x && p x) l.
Proof.
  induction l as [|x l IH]; simpl; [reflexivity|].
  destruct (q x); simpl; [destruct (p x)|]; congruence.
Qed.






(** ** Distinct names *)

Lemma by_name_trans a b c :
  by_name a b = true -> by_name b c = true -> by_name a c = true.
Proof.
  unfold by_name. intros H1 H2.
  apply Is_true_true. apply Is_true_true in H1, H2.
  exact (transitivity (R := String.le) H1 H2).
Qed.

Lemma by_name_total a b : by_name a b = true \/ by_name b a = true.
Proof. apply String.leb_total. Qed.






(** ** What the statements mean *)

(** X2: for a search string without LIKE's special characters, the
    predicate of title_filter and name_filter, LOWER(col) LIKE the
    lowercased string between two [%], holds exactly when the lowercased
    column contains the lowercased string. *)
Theorem like_pattern_is_substring (s t : string) :
  Claimed.plain s = true ->
  like ("%" +:+ toLowerCase s +:+ "%") (toLowerCase t) = true
  <-> exists pre post, toLowerCase t = pre +:+ toLowerCase s +:+ post.
Proof.
  intros Hs. rewrite like_pattern_icontains by assumption.
  apply containsb_spec.
Qed.

(** X2 at work: the example of the route's documentation. *)
Lemma like_pattern_is_substring_witness :
  like ("%" +:+ toLowerCase "Net" +:+ "%") (toLowerCase "Study Networks") = true.
Proof.
  apply (like_pattern_is_substring "Net" "Study Networks"); [reflexivity|].
  exists "study ", "works". reflexivity.
Defined.

(** X3: the SET list that sqlForPartialUpdate returns reads back as the
    assignments it stands for, the k-th column to parameter k, when no
    column name is empty or holds a double quote. *)
Theorem setCols_reads_back (data : obj) (jsToSql : gmap string string) u :
  Sql.sqlForPartialUpdate data jsToSql = Ok u ->
  Forall (fun k => quote_free (Sql.column jsToSql k) = true
                   /\ Sql.column jsToSql k <> "") (obj_keys data) ->
  read_set_list (Sql.setCols u)
  = Some (imap (fun i k => (Sql.column jsToSql k, (i + 1)%nat)) (obj_keys data))
  /\ bind_params (imap (fun i k => (Sql.column jsToSql k, (i + 1)%nat))
                       (obj_keys data))
                 (Sql.values u)
     = Some (map (fun kv => (Sql.column jsToSql (fst kv), snd kv)) data).
Proof.
  unfold Sql.sqlForPartialUpdate. intros Hu Hok.
  destruct (Nat.eqb (length (obj_keys data)) 0) eqn:Hlen; [discriminate|].
  injection Hu as <-. cbn [Sql.setCols Sql.values]. split.
  - apply read_set_list_setCols; [|exact Hok].
    intros Hnil. rewrite Hnil in Hlen. discriminate.
  - pose proof (bind_params_run (Sql.column jsToSql) data [] []) as Hb.
    cbn [length app Nat.add] in Hb. rewrite app_nil_r in Hb. exact Hb.
Qed.

(** X3 at work on a body of Company.update. *)
Lemma setCols_reads_back_witness :
  exists u,
    Sql.sqlForPartialUpdate [("numEmployees", JNum 10); ("name", JStr "N")]
                            company_columns = Ok u
    /\ read_set_list (Sql.setCols u) = Some [("num_employees", 1%nat); ("name", 2%nat)].
Proof.
  eexists. split; [reflexivity|].
  refine (proj1 (setCols_reads_back
                   [("numEmployees", JNum 10); ("name", JStr "N")]
                   company_columns _ eq_refl _)).
  repeat constructor; discriminate.
Defined.

Lemma update_where_none {R : Type} (hit : R -> bool) (f : R -> option R) l l' :
  update_where hit f l = Some (l', []) -> l' = l.
Proof.
  revert l'. induction l as [|x l IH]; intros l'; simpl.
  - intros [= <-]. reflexivity.
  - destruct (update_where hit f l) as [[l'' written]|]; [|discriminate].
    destruct (hit x).
    + destruct (f x); discriminate.
    + intros [= <- ->]. f_equal. apply IH. reflexivity.
Qed.

Lemma first_row_falsy {R : Type} (view : R -> obj) (rs : list R) :
  truthy (first_row (map view rs)) = false -> rs = [].
Proof. destruct rs; [reflexivity|discriminate]. Qed.

(** X4: an update that throws, whether the body is empty, the statement
    is rejected or no row has the key, leaves both tables as they were. *)
Theorem failed_update_changes_nothing (w : world) :
  (forall id data e w', Job.update id data w = (Err e, w') -> store w' = store w)
  /\ (forall handle data e w',
        Company.update handle data w = (Err e, w') -> store w' = store w).
Proof.
  split.
  - intros id data e w'. unfold Job.update.
    destruct (Sql.sqlForPartialUpdate _ _) as [u|e0]; run_M;
      [|intros [= _ <-]; reflexivity].
    destruct (update_jobs _ _ _ (store w)) as [[rows d']|e0] eqn:Hrun;
      [|intros [= _ <-]; reflexivity].
    unfold update_jobs in Hrun.
    destruct (analyse_update _ _ _ _ _) as [[typed target]|]; [|discriminate].
    unfold rewrite_rows in Hrun.
    destruct (update_where _ _ (jobs (store w))) as [[jobs' written]|] eqn:Hw;
      [|discriminate].
    destruct (bool_decide (written = []) || consistent _); [|discriminate].
    injection Hrun as <- <-.
    destruct (truthy (first_row (map job_obj written))) eqn:Ht; simpl;
      [discriminate|].
    intros [= _ <-]. apply first_row_falsy in Ht. subst written.
    apply update_where_none in Hw. subst jobs'. cbn [store].
    destruct (store w); reflexivity.
  - intros handle data e w'. unfold Company.update.
    destruct (Sql.sqlForPartialUpdate _ _) as [u|e0]; run_M;
      [|intros [= _ <-]; reflexivity].
    destruct (update_companies _ _ _ (store w)) as [[rows d']|e0] eqn:Hrun;
      [|intros [= _ <-]; reflexivity].
    unfold update_companies in Hrun.
    destruct (analyse_update _ _ _ _ _) as [[typed target]|]; [|discriminate].
    unfold rewrite_rows in Hrun.
    destruct (update_where _ _ (companies (store w)))
      as [[companies' written]|] eqn:Hw; [|discriminate].
    destruct (bool_decide (written = []) || consistent _); [|discriminate].
    injection Hrun as <- <-.
    destruct (truthy (first_row (map company_obj written))) eqn:Ht; simpl;
      [discriminate|].
    intros [= _ <-]. apply first_row_falsy in Ht. subst written.
    apply update_where_none in Hw. subst companies'. cbn [store].
    destruct (store w); reflexivity.
Qed.

(** ** The theorems at work on the test store *)


(** C9 at work: [true] leaves out job j4, which has no equity; the value
    [TRUE] does not turn the equity filter on. *)
Lemma hasEquity_only_true_witness :
  fst (get_jobs [("hasEquity", JStr "true")] (fresh jobly_store))
  = Ok (JObj [("jobs",
          JArr [JObj (job_obj (JobRow 1 "j1" (Some 1000) (Some "0.1") "c1"));
                JObj (job_obj (JobRow 2 "j2" (Some 2000) (Some "0.2") "c2"));
                JObj (job_obj (JobRow 3 "j3" (Some 3000) (Some "0.3") "c3"))])])
  /\ get_jobs [("hasEquity", JStr "TRUE")] (fresh jobly_store)
     = Claimed.get_jobs_unrestricted [("hasEquity", JStr "TRUE")]
                                     (fresh jobly_store).
Proof.
  split.
  - destruct (hasEquity_only_true [("hasEquity", JStr "true")]) as (H & _).
    destruct H as (H & _); [reflexivity|]. rewrite H. reflexivity.
  - destruct (hasEquity_only_true [("hasEquity", JStr "TRUE")]) as (_ & H).
    destruct H as (_ & H); [discriminate|]. apply H.
Defined.

(** C10 at work: what Job.get returns for job 1. *)
Lemma job_results_carry_no_id_witness :
  exists v w', Job.get (JNum 1) (fresh jobly_store) = (Ok v, w')
               /\ Claimed.job_value v.
Proof.
  eexists _, _. split; [reflexivity|].
  eapply (proj1 (proj2 (proj2 (job_results_carry_no_id (fresh jobly_store))))
            (JNum 1)).
  reflexivity.
Defined.

(** C6 at work: the empty body throws, a body with a field does not. *)
Lemma sqlForPartialUpdate_throws_iff_empty_witness :
  Sql.sqlForPartialUpdate [] job_columns = Err BadRequestError
  /\ exists u, Sql.sqlForPartialUpdate [("title", JStr "t")] job_columns = Ok u.
Proof.
  split.
  - apply (proj1 (sqlForPartialUpdate_throws_iff_empty [] job_columns)).
    reflexivity.
  - apply (proj2 (proj2 (sqlForPartialUpdate_throws_iff_empty
                           [("title", JStr "t")] job_columns))).
    discriminate.
Defined.

(** * Further properties of the models and the handlers *)

(** ** Calls that only read *)

Lemma reads_only_ret {A : Type} (a : A) : reads_only (mret a : M A).
Proof. intros w. reflexivity. Qed.

Lemma reads_only_throw {A : Type} (e : error) : reads_only (throw e : M A).
Proof. intros w. reflexivity. Qed.

Lemma reads_only_bind {A B : Type} (m : M A) (k : A -> M B) :
  reads_only m -> (forall a, reads_only (k a)) -> reads_only (m ≫= k).
Proof.
  intros Hm Hk w. specialize (Hm w). unfold mbind, M_bind.
  destruct (m w) as [[a|e] w1]; cbn [snd] in *.
  - rewrite Hk. exact Hm.
  - exact Hm.
Qed.

Lemma reads_only_query {A : Type} (s : stmt) (run : db -> res (A * db)) :
  (forall d a d', run d = Ok (a, d') -> d' = d) -> reads_only (query s run).
Proof.
  intros Hrun w. unfold query.
  destruct (run (store w)) as [[a d']|e] eqn:H; [|reflexivity].
  cbn [snd store]. eapply Hrun. exact H.
Qed.

Lemma reading_keeps {A : Type} (f : db -> res A) d a d' :
  reading f d = Ok (a, d') -> d' = d.
Proof. unfold reading. destruct (f d); intros [= _ <-]. reflexivity. Qed.

Lemma select_jobs_keeps cond order d a d' :
  select_jobs cond order d = Ok (a, d') -> d' = d.
Proof. apply reading_keeps. Qed.

Lemma select_companies_keeps cond order d a d' :
  select_companies cond order d = Ok (a, d') -> d' = d.
Proof. apply reading_keeps. Qed.

Ltac keeps :=
  intros ? ? ?;
  unfold select_job_by_id, select_jobs_min_salary, select_jobs_title_like,
    select_jobs_of_company, select_company_by_handle, select_companies_min,
    select_companies_max, select_companies_name_like, select_company_handle;
  repeat case_match; try discriminate;
  first [apply select_jobs_keeps | apply select_companies_keeps
        | apply reading_keeps].

Ltac reads :=
  repeat first
    [ apply reads_only_ret
    | apply reads_only_throw
    | apply reads_only_bind; [|intros ?]
    | apply reads_only_query; keeps
    | case_match ].

Lemma job_findAll_reads : reads_only Job.findAll.
Proof. unfold Job.findAll. reads. Qed.

Lemma job_title_filter_reads str : reads_only (Job.title_filter str).
Proof. unfold Job.title_filter. reads. Qed.

Lemma job_minSalary_filter_reads num : reads_only (Job.minSalary_filter num).
Proof. unfold Job.minSalary_filter. reads. Qed.

Lemma job_hasEquity_filter_reads v : reads_only (Job.hasEquity_filter v).
Proof. unfold Job.hasEquity_filter. reads. Qed.

Lemma job_multi_filter_reads str minSalary hasEquity :
  reads_only (Job.multi_filter str minSalary hasEquity).
Proof.
  unfold Job.multi_filter.
  repeat (apply reads_only_bind;
          [case_match;
           first [apply job_title_filter_reads | apply job_minSalary_filter_reads
                 | apply job_hasEquity_filter_reads | apply job_findAll_reads]
          |intros ?]).
  apply reads_only_ret.
Qed.

Lemma job_get_reads id : reads_only (Job.get id).
Proof. unfold Job.get. reads. Qed.

(** X6: no listing, filter or lookup of jobs, and neither of the two GET
    handlers, changes a table or the id sequence, whatever the arguments
    are and whether the call resolves or rejects. *)
Theorem job_reads_change_nothing (str minSalary hasEquity id : jsval)
    (q params : obj) :
  reads_only Job.findAll
  /\ reads_only (Job.title_filter str)
  /\ reads_only (Job.minSalary_filter minSalary)
  /\ reads_only (Job.hasEquity_filter hasEquity)
  /\ reads_only (Job.multi_filter str minSalary hasEquity)
  /\ reads_only (Job.get id)
  /\ reads_only (get_jobs q)
  /\ reads_only (get_job params).
Proof.
  repeat apply conj.
  - apply job_findAll_reads.
  - apply job_title_filter_reads.
  - apply job_minSalary_filter_reads.
  - apply job_hasEquity_filter_reads.
  - apply job_multi_filter_reads.
  - apply job_get_reads.
  - unfold get_jobs. apply reads_only_bind; [apply job_multi_filter_reads|].
    intros ?. apply reads_only_ret.
  - unfold get_job. apply reads_only_bind; [apply job_get_reads|].
    intros ?. apply reads_only_ret.
Qed.

Lemma company_findAll_reads : reads_only Company.findAll.
Proof. unfold Company.findAll. reads. Qed.

Lemma company_name_filter_reads str : reads_only (Company.name_filter str).
Proof. unfold Company.name_filter. reads. Qed.

Lemma company_minEmployees_filter_reads num :
  reads_only (Company.minEmployees_filter num).
Proof. unfold Company.minEmployees_filter. reads. Qed.

Lemma company_maxEmployees_filter_reads num :
  reads_only (Company.maxEmployees_filter num).
Proof. unfold Company.maxEmployees_filter. reads. Qed.

(** X7: no listing, filter or lookup of companies changes a table or the
    id sequence, whatever the arguments are and whether the call resolves
    or rejects. *)
Theorem company_reads_change_nothing (str min max handle : jsval) :
  reads_only Company.findAll
  /\ reads_only (Company.name_filter str)
  /\ reads_only (Company.minEmployees_filter min)
  /\ reads_only (Company.maxEmployees_filter max)
  /\ reads_only (Company.multi_filter str min max)
  /\ reads_only (Company.get handle).
Proof.
  repeat apply conj.
  - apply company_findAll_reads.
  - apply company_name_filter_reads.
  - apply company_minEmployees_filter_reads.
  - apply company_maxEmployees_filter_reads.
  - unfold Company.multi_filter.
    repeat (apply reads_only_bind;
            [case_match;
             first [apply company_name_filter_reads
                   | apply company_minEmployees_filter_reads
                   | apply company_maxEmployees_filter_reads
                   | apply company_findAll_reads]
            |intros ?]).
    apply reads_only_ret.
  - unfold Company.get. reads.
Qed.

(** ** Listings and single filters *)

Lemma null_last_leb_trans a b c :
  null_last_leb a b = true -> null_last_leb b c = true ->
  null_last_leb a c = true.
Proof.
  destruct a, b, c; simpl; try congruence. rewrite !Z.leb_le. lia.
Qed.

Lemma null_last_leb_total a b :
  null_last_leb a b = true \/ null_last_leb b a = true.
Proof. destruct a, b; simpl; auto. rewrite !Z.leb_le. lia. Qed.

Lemma by_salary_trans a b c :
  by_salary a b = true -> by_salary b c = true -> by_salary a c = true.
Proof. apply null_last_leb_trans. Qed.

Lemma by_salary_total a b : by_salary a b = true \/ by_salary b a = true.
Proof. apply null_last_leb_total. Qed.

Lemma by_num_employees_trans a b c :
  by_num_employees a b = true -> by_num_employees b c = true ->
  by_num_employees a c = true.
Proof. apply null_last_leb_trans. Qed.

Lemma by_num_employees_total a b :
  by_num_employees a b = true \/ by_num_employees b a = true.
Proof. apply null_last_leb_total. Qed.

Lemma Forall_filter_holds {A : Type} (p : A -> bool) (l : list A) :
  List.Forall (fun x => p x = true) (List.filter p l).
Proof. apply List.Forall_forall. intros x Hx. apply filter_In in Hx. tauto. Qed.

(** X8: findAll lists every row of its table exactly once, jobs in
    ascending title order and companies in ascending name order. *)
Theorem findAll_every_row_in_order (w : world) :
  (exists l, fst (Job.findAll w) = Ok (map job_obj l)
     /\ Permutation l (jobs (store w))
     /\ StronglySorted (fun a b => by_title a b = true) l)
  /\ (exists l, fst (Company.findAll w) = Ok (map company_obj l)
        /\ Permutation l (companies (store w))
        /\ StronglySorted (fun a b => by_name a b = true) l).
Proof.
  split.
  - exists (order_by by_title (jobs (store w))).
    rewrite job_findAll_run. split; [reflexivity|].
    split; [apply order_by_perm|].
    apply order_by_sorted; [apply by_title_trans|apply by_title_total].
  - exists (order_by by_name (companies (store w))).
    rewrite company_findAll_run. split; [reflexivity|].
    split; [apply order_by_perm|].
    apply order_by_sorted; [apply by_name_trans|apply by_name_total].
Qed.

(** X9: with an integer threshold, minSalary_filter sends one SELECT and
    resolves with exactly the jobs whose salary is known and at least the
    threshold, each once, in ascending salary order; no job without a
    salary is among them. *)
Theorem minSalary_filter_exact (num : jsval) (n : Z) (w : world) :
  pg_int num = Some (Some n) ->
  exists l,
    Job.minSalary_filter num w = (Ok (map job_obj l), asked w [SELECT Jobs])
    /\ Permutation l
         (List.filter (fun r => match j_salary r with
                                | Some x => n <=? x
                                | None => false
                                end) (jobs (store w)))
    /\ StronglySorted (fun a b => by_salary a b = true) l
    /\ List.Forall (fun r => exists x, j_salary r = Some x /\ n <= x) l.
Proof.
  intros Hn.
  exists (order_by by_salary
            (List.filter (fun r => ge_param (j_salary r) (Some n))
                         (jobs (store w)))).
  split; [|split; [|split]].
  - unfold Job.minSalary_filter, select_jobs_min_salary, select_jobs. run_M.
    simpl. rewrite Hn. reflexivity.
  - rewrite order_by_perm. erewrite filter_ext_in_bool; [reflexivity|].
    intros r _. unfold ge_param. destruct (j_salary r); reflexivity.
  - apply order_by_sorted; [apply by_salary_trans|apply by_salary_total].
  - apply List.Forall_forall. intros r Hr. apply order_by_In in Hr.
    apply filter_In in Hr as [_ Hr]. unfold ge_param in Hr.
    destruct (j_salary r) as [x|]; [|discriminate].
    exists x. split; [reflexivity|]. apply Z.leb_le. exact Hr.
Qed.

(** X9 at work: the jobs of the test suite that pay 3000 or more. *)
Lemma minSalary_filter_exact_witness :
  exists l,
    Job.minSalary_filter (JStr "3000") (fresh jobly_store)
    = (Ok (map job_obj l), asked (fresh jobly_store) [SELECT Jobs])
    /\ Permutation l
         (List.filter (fun r => match j_salary r with
                                | Some x => 3000 <=? x
                                | None => false
                                end) (jobs (store (fresh jobly_store))))
    /\ StronglySorted (fun a b => by_salary a b = true) l
    /\ List.Forall (fun r => exists x, j_salary r = Some x /\ 3000 <= x) l.
Proof.
  exact (minSalary_filter_exact (JStr "3000") 3000 (fresh jobly_store) eq_refl).
Defined.

(** X10: with integer bounds, minEmployees_filter and maxEmployees_filter
    resolve with exactly the companies whose head count is known and
    within the bound, each once, in ascending head-count order. *)
Theorem employees_filters_exact (min max : jsval) (lo hi : Z) (w : world) :
  pg_int min = Some (Some lo) -> pg_int max = Some (Some hi) ->
  (exists l,
     Company.minEmployees_filter min w
     = (Ok (map company_obj l), asked w [SELECT Companies])
     /\ Permutation l
          (List.filter (fun r => match c_num_employees r with
                                 | Some x => lo <=? x
                                 | None => false
                                 end) (companies (store w)))
     /\ StronglySorted (fun a b => by_num_employees a b = true) l)
  /\ (exists l,
        Company.maxEmployees_filter max w
        = (Ok (map company_obj l), asked w [SELECT Companies])
        /\ Permutation l
             (List.filter (fun r => match c_num_employees r with
                                    | Some x => x <=? hi
                                    | None => false
                                    end) (companies (store w)))
        /\ StronglySorted (fun a b => by_num_employees a b = true) l).
Proof.
  intros Hlo Hhi. split.
  - exists (order_by by_num_employees
              (List.filter (fun r => ge_param (c_num_employees r) (Some lo))
                           (companies (store w)))).
    split; [|split].
    + unfold Company.minEmployees_filter, select_companies_min,
        select_companies. run_M. simpl. rewrite Hlo. reflexivity.
    + rewrite order_by_perm. erewrite filter_ext_in_bool; [reflexivity|].
      intros r _. unfold ge_param. destruct (c_num_employees r); reflexivity.
    + apply order_by_sorted;
        [apply by_num_employees_trans|apply by_num_employees_total].
  - exists (order_by by_num_employees
              (List.filter (fun r => le_param (c_num_employees r) (Some hi))
                           (companies (store w)))).
    split; [|split].
    + unfold Company.maxEmployees_filter, select_companies_max,
        select_companies. run_M. simpl. rewrite Hhi. reflexivity.
    + rewrite order_by_perm. erewrite filter_ext_in_bool; [reflexivity|].
      intros r _. unfold le_param. destruct (c_num_employees r); reflexivity.
    + apply order_by_sorted;
        [apply by_num_employees_trans|apply by_num_employees_total].
Qed.

(** X10 at work: the companies of the test suite with at least two and
    with at most two employees. *)
Lemma employees_filters_exact_witness :
  (exists l,
     Company.minEmployees_filter (JStr "2") (fresh jobly_store)
     = (Ok (map company_obj l), asked (fresh jobly_store) [SELECT Companies])
     /\ Permutation l
          (List.filter (fun r => match c_num_employees r with
                                 | Some x => 2 <=? x
                                 | None => false
                                 end) (companies (store (fresh jobly_store))))
     /\ StronglySorted (fun a b => by_num_employees a b = true) l)
  /\ (exists l,
        Company.maxEmployees_filter (JNum 2) (fresh jobly_store)
        = (Ok (map company_obj l), asked (fresh jobly_store) [SELECT Companies])
        /\ Permutation l
             (List.filter (fun r => match c_num_employees r with
                                    | Some x => x <=? 2
                                    | None => false
                                    end) (companies (store (fresh jobly_store))))
        /\ StronglySorted (fun a b => by_num_employees a b = true) l).
Proof.
  exact (employees_filters_exact (JStr "2") (JNum 2) 2 2 (fresh jobly_store)
           eq_refl eq_refl).
Defined.

(** ** Nothing that satisfies the criteria is lost *)









(** ** Updating a row that is not there *)

Lemma job_update_analysed data id k :
  pg_int id = Some (Some k) ->
  Claimed.update_body Claimed.job_field_ok data = true ->
  exists typed,
    analyse_update read_job_set pg_int
      (join ", " (imap (Sql.fragment job_columns) (obj_keys data)))
      ("$" +:+ dec (length (obj_values data) + 1))
      (obj_values data ++ [id])
    = Some (typed, Some k).
Proof.
  intros Hid Hbody.
  apply update_body_parts in Hbody as (Hne & Hok & Hnd).
  destruct (write_cols_run read_job_set write_job_set job_obj
              (Sql.column job_columns) Claimed.job_field_ok job_kept)
    with (data := data) as (typed & Htyped & _); try assumption.
  { intros x. split; reflexivity. }
  { intros r1 r2 r3 [H1 H2] [H3 H4]. split; congruence. }
  { apply job_single. }
  exists typed. erewrite analyse_update_run; try eassumption; [reflexivity| |].
  - eapply forallb_keys; [exact Hok|]. intros k0 v0 Hkv.
    rewrite (job_field_column k0 v0 Hkv).
    unfold Claimed.job_field_ok in Hkv.
    destruct (String.eqb_spec k0 "title") as [->|_]; [split; [reflexivity|discriminate]|].
    destruct (String.eqb_spec k0 "salary") as [->|_]; [split; [reflexivity|discriminate]|].
    destruct (String.eqb_spec k0 "equity") as [->|_]; [split; [reflexivity|discriminate]|].
    discriminate.
  - apply NoDup_map_in; [|exact Hnd].
    intros x y Hx Hy Hxy.
    destruct (forallb_keys_in _ _ x Hok Hx) as [vx Hvx].
    destruct (forallb_keys_in _ _ y Hok Hy) as [vy Hvy].
    rewrite (job_field_column x vx Hvx), (job_field_column y vy Hvy) in Hxy.
    exact Hxy.
Qed.

Lemma job_update_miss_run w id k data :
  pg_int id = Some (Some k) ->
  (forall r, In r (jobs (store w)) -> j_id r <> k) ->
  Claimed.update_body Claimed.job_field_ok data = true ->
  Job.update id data w = (Err NotFoundError, asked w [UPDATE Jobs]).
Proof.
  intros Hid Hmiss Hbody.
  destruct (job_update_analysed data id k Hid Hbody) as (typed & Han).
  apply update_body_parts in Hbody as (Hne & _ & _).
  unfold Job.update, Sql.sqlForPartialUpdate.
  unfold obj_keys at 1. rewrite length_map.
  destruct data as [|kv data]; [contradiction|]. cbn [length Nat.eqb].
  cbn [Sql.setCols Sql.values]. run_M. unfold update_jobs.
  rewrite Han. unfold rewrite_rows.
  rewrite update_where_miss.
  - destruct w as [[js cs sq] st]. reflexivity.
  - intros x Hx. unfold eq_param. apply bool_decide_eq_false_2.
    apply Hmiss. exact Hx.
Qed.





(** ** Reading back what was written *)


Lemma filter_none {A : Type} (p : A -> bool) (l : list A) :
  (forall x, In x l -> p x = false) -> List.filter p l = [].
Proof.
  intros H. apply filter_nil_iff. intros (x & Hx & Hp).
  rewrite (H x Hx) in Hp. discriminate.
Qed.




Lemma js_of_int_inj a b : js_of_int a = js_of_int b -> a = b.
Proof. destruct a, b; simpl; congruence. Qed.

Lemma js_of_text_inj a b : js_of_text a = js_of_text b -> a = b.
Proof. destruct a, b; simpl; congruence. Qed.


Lemma company_obj_fields_inj a b :
  (forall f, obj_get (company_obj a) f = obj_get (company_obj b) f) -> a = b.
Proof.
  intros H.
  pose proof (H "handle") as Hh. pose proof (H "name") as Hn.
  pose proof (H "description") as Hd. pose proof (H "numEmployees") as He.
  pose proof (H "logoUrl") as Hl.
  destruct a, b. cbn in Hh, Hn, Hd, He, Hl.
  apply js_of_int_inj in He. apply js_of_text_inj in Hl. congruence.
Qed.







(** ** Other rows are left alone *)

Lemma job_get_of_rows id k w w' :
  pg_int id = Some (Some k) ->
  List.filter (fun r => eq_param (j_id r) (Some k)) (jobs (store w'))
  = List.filter (fun r => eq_param (j_id r) (Some k)) (jobs (store w)) ->
  fst (Job.get id w') = fst (Job.get id w).
Proof.
  intros Hid Heq. rewrite !(job_get_run id k) by exact Hid. rewrite Heq.
  destruct (List.filter _ (jobs (store w))); reflexivity.
Qed.

Lemma filter_swap_row {A : Type} (p : A -> bool) before r r' after :
  p r = false -> p r' = false ->
  List.filter p (before ++ r' :: after) = List.filter p (before ++ r :: after).
Proof.
  intros Hr Hr'. rewrite !List.filter_app. cbn [List.filter].
  rewrite Hr, Hr'. reflexivity.
Qed.

Lemma has_job_dec k d :
  Claimed.has_job k d \/ forall r, In r (jobs d) -> j_id r <> k.
Proof.
  destruct (List.filter (fun r => eq_param (j_id r) (Some k)) (jobs d))
    as [|x l] eqn:Hf.
  - right. intros r Hr Hk.
    assert (Hin : In r (List.filter (fun r => eq_param (j_id r) (Some k)) (jobs d))).
    { apply filter_In. split; [exact Hr|]. apply bool_decide_eq_true_2. exact Hk. }
    rewrite Hf in Hin. destruct Hin.
  - left. apply has_job_filter. rewrite Hf. discriminate.
Qed.

(** X16: an update of one job with a well-formed body, whether it finds
    its row or not, leaves what Job.get answers for every other id as it
    was. *)
Theorem update_leaves_other_jobs (w : world) id k data id' k' :
  consistent (store w) = true ->
  pg_int id = Some (Some k) ->
  Claimed.update_body Claimed.job_field_ok data = true ->
  pg_int id' = Some (Some k') -> k' <> k ->
  fst (Job.get id' (snd (Job.update id data w))) = fst (Job.get id' w).
Proof.
  intros Hcons Hid Hbody Hid' Hne.
  destruct (has_job_dec k (store w)) as [(r & Hin & Hk)|Hmiss].
  - destruct (job_update_run w id k data r Hcons Hid Hin Hk Hbody)
      as (r' & before & after & Hsplit & Hrun & Hidr & _).
    rewrite Hrun. cbn [snd]. apply (job_get_of_rows id' k'); [exact Hid'|].
    cbn [store jobs]. rewrite Hsplit.
    apply filter_swap_row; apply bool_decide_eq_false_2; congruence.
  - rewrite (job_update_miss_run w id k data Hid Hmiss Hbody). cbn [snd].
    apply (job_get_of_rows id' k'); [exact Hid'|]. reflexivity.
Qed.

(** X16 at work: job 2 of the test suite after job 1 got a new salary. *)
Lemma update_leaves_other_jobs_witness :
  fst (Job.get (JNum 2)
         (snd (Job.update (JNum 1) [("salary", JNum 10)] (fresh jobly_store))))
  = fst (Job.get (JNum 2) (fresh jobly_store)).
Proof.
  apply (update_leaves_other_jobs (fresh jobly_store) (JNum 1) 1
           [("salary", JNum 10)] (JNum 2) 2).
  - reflexivity.
  - reflexivity.
  - reflexivity.
  - reflexivity.
  - discriminate.
Defined.

(** X17: once Job.remove ran for an id, whether it found a row or not,
    Job.get and a second Job.remove of that id throw NotFoundError, and
    Job.get answers for every other id as before. *)
Theorem removed_job_is_gone (w : world) id k :
  pg_int id = Some (Some k) ->
  fst (Job.get id (snd (Job.remove id w))) = Err NotFoundError
  /\ fst (Job.remove id (snd (Job.remove id w))) = Err NotFoundError
  /\ forall id' k', pg_int id' = Some (Some k') -> k' <> k ->
       fst (Job.get id' (snd (Job.remove id w))) = fst (Job.get id' w).
Proof.
  intros Hid.
  set (hit := fun r => eq_param (j_id r) (Some k)).
  set (w' := World (Db (List.filter (fun r => negb (hit r)) (jobs (store w)))
                       (companies (store w)) (jobs_id_seq (store w)))
                   (sent w ++ [DELETE Jobs])).
  assert (Hw : snd (Job.remove id w) = w').
  { rewrite (job_remove_run id k w Hid). cbv zeta.
    destruct (List.filter (fun r => eq_param (j_id r) (Some k))
                          (jobs (store w))); reflexivity. }
  rewrite Hw. split; [|split].
  - rewrite (job_get_run id k w' Hid). cbn [store jobs w'].
    fold hit. rewrite filter_negb_none. reflexivity.
  - rewrite (job_remove_run id k w' Hid). cbv zeta. cbn [store jobs w'].
    fold hit. rewrite filter_negb_none. reflexivity.
  - intros id' k' Hid' Hne. apply (job_get_of_rows id' k'); [exact Hid'|].
    cbn [store jobs w']. rewrite filter_filter.
    apply filter_ext_in_bool. intros r _. unfold hit, eq_param.
    destruct (bool_decide_reflect (j_id r = k')) as [Hr|Hr]; [|apply andb_false_r].
    rewrite bool_decide_eq_false_2 by congruence. reflexivity.
Qed.

(** X17 at work: job 1 of the test suite is removed. *)
Lemma removed_job_is_gone_witness :
  fst (Job.get (JNum 1) (snd (Job.remove (JNum 1) (fresh jobly_store))))
  = Err NotFoundError
  /\ fst (Job.remove (JNum 1) (snd (Job.remove (JNum 1) (fresh jobly_store))))
     = Err NotFoundError
  /\ forall id' k', pg_int id' = Some (Some k') -> k' <> 1 ->
       fst (Job.get id' (snd (Job.remove (JNum 1) (fresh jobly_store))))
       = fst (Job.get id' (fresh jobly_store)).
Proof.
  exact (removed_job_is_gone (fresh jobly_store) (JNum 1) 1 eq_refl).
Defined.

(** ** Creating rows *)








Lemma has_company_dec h d :
  Claimed.has_company h d \/ forall r, In r (companies d) -> c_handle r <> h.
Proof.
  destruct (List.filter (fun r => eq_param (c_handle r) (Some h)) (companies d))
    as [|x l] eqn:Hf.
  - right. intros r Hr Hk.
    assert (Hin : In r (List.filter (fun r => eq_param (c_handle r) (Some h))
                                    (companies d))).
    { apply filter_In. split; [exact Hr|]. apply bool_decide_eq_true_2. exact Hk. }
    rewrite Hf in Hin. destruct Hin.
  - left. apply has_company_filter. rewrite Hf. discriminate.
Qed.

Lemma company_create_duplicate_run w data h :
  pg_text (obj_get data "handle") = Some (Some h) ->
  Claimed.has_company h (store w) ->
  Company.create data w = (Err BadRequestError, asked w [SELECT Companies]).
Proof.
  intros Hh Hhas. apply has_company_filter in Hhas.
  unfold Company.create, select_company_handle. run_M.
  cbn [param lookup list_lookup mbind option_bind]. rewrite Hh.
  destruct (List.filter _ (companies (store w))); [contradiction|].
  reflexivity.
Qed.

(** X19: for a handle that reads as text, Company.create throws
    BadRequestError exactly when a company already has the handle; it
    then has sent its duplicate check only, no INSERT, and the store is
    as it was, whatever else the body holds. *)
Theorem create_duplicate_company (w : world) (data : obj) (h : string) :
  pg_text (obj_get data "handle") = Some (Some h) ->
  (Claimed.has_company h (store w) ->
     Company.create data w = (Err BadRequestError, asked w [SELECT Companies]))
  /\ (fst (Company.create data w) = Err BadRequestError ->
        Claimed.has_company h (store w)).
Proof.
  intros Hh. split; [apply company_create_duplicate_run; exact Hh|].
  destruct (has_company_dec h (store w)) as [Hhas|Hmiss]; [intros _; exact Hhas|].
  unfold Company.create, select_company_handle. run_M.
  cbn [param lookup list_lookup mbind option_bind]. rewrite Hh.
  rewrite filter_none
    by (intros x Hx; apply bool_decide_eq_false_2; apply Hmiss; exact Hx).
  cbn [map first_row truthy store sent].
  destruct (insert_company _ (store w)) as [[rows d']|e] eqn:Hins;
    [discriminate|].
  unfold insert_company in Hins.
  repeat case_match; try discriminate; injection Hins as <-; discriminate.
Qed.

(** X19 at work: company c1 of the test suite, once more. *)
Lemma create_duplicate_company_witness :
  Company.create [("handle", JStr "c1"); ("name", JStr "Other")]
                 (fresh jobly_store)
  = (Err BadRequestError, asked (fresh jobly_store) [SELECT Companies]).
Proof.
  destruct (create_duplicate_company (fresh jobly_store)
              [("handle", JStr "c1"); ("name", JStr "Other")] "c1" eq_refl)
    as [H _].
  apply H.
  exists (CompanyRow "c1" "C1" "Desc1" (Some 1) (Some "http://c1.img")).
  split; [left|]; reflexivity.
Defined.





(** ** A company and its jobs *)

(** X21: when Company.get resolves, two SELECTs went out, and the answer
    is a company row of that handle with, under [jobs], exactly the jobs
    whose company_handle is the handle, each once, in ascending title
    order, each with its title, salary, equity and companyHandle. *)
Theorem company_get_lists_its_jobs (w : world) handle h company w' :
  pg_text handle = Some (Some h) ->
  Company.get handle w = (Ok company, w') ->
  exists r js,
    In r (companies (store w)) /\ c_handle r = h
    /\ company = JObj (company_obj r
                       ++ [("jobs", JArr (map JObj (map job_obj js)))])
    /\ Permutation js
         (List.filter (fun j => String.eqb (j_company_handle j) h)
                      (jobs (store w)))
    /\ StronglySorted (fun a b => by_title a b = true) js
    /\ w' = asked w [SELECT Companies; SELECT Jobs].
Proof.
  intros Hh. rewrite (company_get_run handle h w Hh).
  destruct (List.filter (fun r => eq_param (c_handle r) (Some h))
                        (companies (store w))) as [|r l] eqn:Hf;
    [discriminate|].
  intros [= <- <-].
  assert (Hr : In r (List.filter (fun r => eq_param (c_handle r) (Some h))
                                 (companies (store w)))).
  { rewrite Hf. left. reflexivity. }
  apply filter_In in Hr as [Hr Hk]. apply bool_decide_eq_true_1 in Hk.
  exists r,
    (order_by by_title
       (List.filter (fun j => bool_decide (j_company_handle j = h))
                    (jobs (store w)))).
  split; [exact Hr|]. split; [exact Hk|]. split; [reflexivity|].
  split; [|split].
  - rewrite order_by_perm. erewrite filter_ext_in_bool; [reflexivity|].
    intros j _. cbv beta. destruct (String.eqb_spec (j_company_handle j) h).
    + apply bool_decide_eq_true_2. assumption.
    + apply bool_decide_eq_false_2. assumption.
  - apply order_by_sorted; [apply by_title_trans|apply by_title_total].
  - reflexivity.
Qed.

(** X21 at work: company c3 of the test suite has jobs j3 and j4. *)
Lemma company_get_lists_its_jobs_witness :
  exists r js,
    In r (companies (store (fresh jobly_store))) /\ c_handle r = "c3"
    /\ JObj (company_obj (CompanyRow "c3" "C3" "Desc3" (Some 3) None)
             ++ [("jobs",
                  JArr [JObj (job_obj (JobRow 3 "j3" (Some 3000) (Some "0.3") "c3"));
                        JObj (job_obj (JobRow 4 "j4" (Some 4000) None "c3"))])])
       = JObj (company_obj r
               ++ [("jobs", JArr (map JObj (map job_obj js)))])
    /\ Permutation js
         (List.filter (fun j => String.eqb (j_company_handle j) "c3")
                      (jobs (store (fresh jobly_store))))
    /\ StronglySorted (fun a b => by_title a b = true) js
    /\ asked (fresh jobly_store) [SELECT Companies; SELECT Jobs]
       = asked (fresh jobly_store) [SELECT Companies; SELECT Jobs].
Proof.
  apply (company_get_lists_its_jobs (fresh jobly_store) (JStr "c3") "c3").
  - reflexivity.
  - reflexivity.
Defined.

(** ** The handlers of routes/jobs.js *)

Lemma only_id_no_title (params : obj) :
  obj_keys params = ["id"] -> obj_get params "title" = JUndefined.
Proof.
  destruct params as [|[k v] [|kv params]]; try discriminate.
  cbn [obj_keys map fst]. intros [= ->]. reflexivity.
Qed.

(** X22: the handler of DELETE /jobs/:id reads [req.params.title], which
    a route with the one parameter [id] never has: when the job is there
    it is deleted and the body answered holds [deleted] as undefined,
    which goes out as the empty object; when it is not, the handler
    fails with NotFoundError. *)
Theorem delete_job_reports_nothing (w : world) (params : obj) (k : Z) :
  obj_keys params = ["id"] ->
  pg_int (obj_get params "id") = Some (Some k) ->
  (Claimed.has_job k (store w) ->
     fst (delete_job params w) = Ok (JObj [("deleted", JUndefined)])
     /\ json (JObj [("deleted", JUndefined)]) = JObj []
     /\ ~ Claimed.has_job k (store (snd (delete_job params w))))
  /\ (~ Claimed.has_job k (store w) ->
        fst (delete_job params w) = Err NotFoundError).
Proof.
  intros Hkeys Hid. unfold delete_job. run_M.
  rewrite (only_id_no_title params Hkeys).
  pose proof (job_remove_run (obj_get params "id") k w Hid) as Hrun.
  cbv zeta in Hrun. unfold Job.remove in *. run_M.
  split; intros Hhas; rewrite has_job_filter in Hhas.
  - destruct (List.filter (fun r => eq_param (j_id r) (Some k))
                          (jobs (store w))) eqn:Hf; [contradiction|].
    rewrite Hrun. split; [reflexivity|]. split; [reflexivity|].
    cbn [snd store]. rewrite has_job_filter. cbn [jobs].
    rewrite filter_negb_none. auto.
  - destruct (List.filter (fun r => eq_param (j_id r) (Some k))
                          (jobs (store w))) eqn:Hf.
    + rewrite Hrun. reflexivity.
    + exfalso. apply Hhas. discriminate.
Qed.

(** X22 at work: DELETE /jobs/1 on the store of the test suite. *)
Lemma delete_job_reports_nothing_witness :
  (Claimed.has_job 1 (store (fresh jobly_store)) ->
     fst (delete_job [("id", JStr "1")] (fresh jobly_store))
     = Ok (JObj [("deleted", JUndefined)])
     /\ json (JObj [("deleted", JUndefined)]) = JObj []
     /\ ~ Claimed.has_job 1
            (store (snd (delete_job [("id", JStr "1")] (fresh jobly_store)))))
  /\ (~ Claimed.has_job 1 (store (fresh jobly_store)) ->
        fst (delete_job [("id", JStr "1")] (fresh jobly_store))
        = Err NotFoundError).
Proof.
  apply (delete_job_reports_nothing (fresh jobly_store) [("id", JStr "1")] 1).
  - reflexivity.
  - reflexivity.
Defined.







(** ** Company.multi_filter: how it can fail *)






(** ** The key placeholder *)

(** X25: in the statement that Job.update and Company.update build from
    what sqlForPartialUpdate returns, there are as many values as fields,
    the k-th value is bound to placeholder k, and the key placeholder,
    numbered one past the values, reads back as the position of the key
    at the end of the parameter list. *)
Theorem update_key_placeholder (data : obj) (jsToSql : gmap string string)
    (u : Sql.partial_update) (key : jsval) :
  Sql.sqlForPartialUpdate data jsToSql = Ok u ->
  length (Sql.values u) = length (obj_keys data)
  /\ (0 < length (Sql.values u))%nat
  /\ (forall i v, Sql.values u !! i = Some v ->
        param (Sql.values u ++ [key]) (i + 1) = Some v)
  /\ exists k,
       read_var ("$" +:+ dec (length (Sql.values u) + 1)) = Some k
       /\ param (Sql.values u ++ [key]) k = Some key.
Proof.
  unfold Sql.sqlForPartialUpdate. intros Hu.
  destruct (Nat.eqb (length (obj_keys data)) 0) eqn:Hlen; [discriminate|].
  injection Hu as <-. cbn [Sql.values].
  apply Nat.eqb_neq in Hlen.
  assert (Hl : length (obj_values data) = length (obj_keys data)).
  { unfold obj_values, obj_keys. rewrite !length_map. reflexivity. }
  split; [exact Hl|]. split; [lia|]. split.
  - intros i v Hi. rewrite param_succ. apply lookup_app_l_Some. exact Hi.
  - exists (length (obj_values data) + 1)%nat. split; [apply read_var_dec|].
    rewrite param_succ. rewrite lookup_app_r by lia.
    rewrite Nat.sub_diag. reflexivity.
Qed.

(** X25 at work: two fields, the key is parameter 3. *)
Lemma update_key_placeholder_witness :
  exists k,
    read_var ("$" +:+ dec (length [JStr "New"; JNum 10] + 1)) = Some k
    /\ param ([JStr "New"; JNum 10] ++ [JNum 1]) k = Some (JNum 1).
Proof.
  destruct (update_key_placeholder
              [("title", JStr "New"); ("salary", JNum 10)] job_columns
              {| Sql.setCols := join ", " (imap (Sql.fragment job_columns)
                                             ["title"; "salary"]);
                 Sql.values := [JStr "New"; JNum 10] |}
              (JNum 1) eq_refl) as (_ & _ & _ & H).
  exact H.
Defined.

(** ** Job.multi_filter: how it can fail *)



